(** * Rideau Canal Skateway dashboard: the read path of the server and the
      history poller of the client.

    The server (Node.js + Express over a Cosmos DB container) has three
    handlers, [GET /api/latest], [GET /api/history/:location] and
    [GET /api/status].  Each one is embedded below as a function from the
    request and the container to the response it sends; a rejected store
    promise or a thrown [URIError] is a [Throw] of the error monad [result],
    and the handler's [try]/[catch] is [tryCatch].  The client's
    [loadHistoricalData] is embedded as a transition system whose events are
    the issue of a fetch and the arrival of its response. *)

From Stdlib Require Import ZArith List String Ascii Bool Lia.
From Stdlib Require Import DecimalString DecimalPos Sorted Permutation.
Import ListNotations.

Local Open Scope string_scope.
Local Open Scope list_scope.
Local Open Scope Z_scope.

(** ** The fragment of JavaScript the handlers rely on *)

Module Js.

(** Outcome of an expression that may throw: the value, or the [message]
    of the error thrown. *)
Inductive result (A : Type) : Type :=
| Ok (a : A)
| Throw (message : string).
Arguments Ok {A} a.
Arguments Throw {A} message.

Definition bind {A B : Type} (r : result A) (k : A -> result B) : result B :=
  match r with
  | Ok a => k a
  | Throw m => Throw m
  end.

(** Values a stored JSON field can hold. *)
Inductive jsval : Type :=
| JUndefined
| JNull
| JBool (b : bool)
| JNum (n : Z)
| JStr (s : string).

(** [v === lit] for a string literal [lit]. *)
Definition strictEqStr (v : jsval) (lit : string) : bool :=
  match v with
  | JStr s => String.eqb s lit
  | _ => false
  end.

(** A query-string parameter as Express hands it over in [req.query]: a
    string, an array of parameters when the name is given several times,
    or an object. *)
#[warnings="-register-all"] Inductive qval : Type :=
| QUndefined
| QStr (s : string)
| QArr (items : list qval)
| QObj.

(** [ToString], which [parseInt] applies to its argument.  An array is
    joined with commas, an undefined item giving the empty string. *)
Fixpoint toString (q : qval) : string :=
  match q with
  | QUndefined => "undefined"
  | QStr s => s
  | QArr items =>
      String.concat ","
        (map (fun item =>
                match item with
                | QUndefined => EmptyString
                | _ => toString item
                end) items)
  | QObj => "[object Object]"
  end.

(** A Number holding an integer, as [parseInt] returns: [NaN], an integer
    that is a double, or an infinity. *)
Inductive number : Type :=
| NaN
| Finite (z : Z)
| Infinity (negative : bool).

Definition twoTo53 : Z := 9007199254740992.

(** The double nearest to the integer [v >= 0], ties to even; [None] when
    it is beyond the largest double. *)
Definition nearestDouble (v : Z) : option Z :=
  if v <? twoTo53 then Some v
  else
    let e := Z.log2 v - 52 in
    let q := Z.shiftr v e in
    let r := v - Z.shiftl q e in
    let half := Z.shiftl 1 (e - 1) in
    let q' :=
      if r <? half then q
      else if half <? r then q + 1
      else if Z.even q then q else q + 1 in
    let w := Z.shiftl q' e in
    if 2 ^ 1024 <=? w then None else Some w.

(** The Number for the mathematical integer [v]. *)
Definition toNumber (v : Z) : number :=
  match nearestDouble (Z.abs v) with
  | Some w => Finite (if v <? 0 then - w else w)
  | None => Infinity (v <? 0)
  end.

Definition code (c : ascii) : Z := Z.of_nat (nat_of_ascii c).

(** The white space and line terminators of one byte: TAB, LF, VT, FF, CR
    and SP. *)
Definition isWhite (c : ascii) : bool :=
  let n := code c in
  (n =? 9) || (n =? 10) || (n =? 11) || (n =? 12) || (n =? 13) || (n =? 32).

(** U+00A0, in UTF-8. *)
Definition isWhite2 (c1 c2 : ascii) : bool :=
  (code c1 =? 194) && (code c2 =? 160).

(** The white space and line terminators of three bytes in UTF-8: U+1680,
    U+2000 to U+200A, U+2028, U+2029, U+202F, U+205F, U+3000 and U+FEFF. *)
Definition isWhite3 (c1 c2 c3 : ascii) : bool :=
  let a := code c1 in
  let b := code c2 in
  let c := code c3 in
  ((a =? 225) && (b =? 154) && (c =? 128)) ||
  ((a =? 226) && (b =? 128) &&
   (((128 <=? c) && (c <=? 138)) || (c =? 168) || (c =? 169) || (c =? 175))) ||
  ((a =? 226) && (b =? 129) && (c =? 159)) ||
  ((a =? 227) && (b =? 128) && (c =? 128)) ||
  ((a =? 239) && (b =? 187) && (c =? 191)).

(** The string without the white space and line terminators it starts
    with; none of two or three bytes starts below the byte 194. *)
Fixpoint trimStart (s : string) : string :=
  match s with
  | String c r =>
      if isWhite c then trimStart r
      else if code c <? 194 then s
      else
        match r with
        | String c2 r2 =>
            if isWhite2 c c2 then trimStart r2
            else
              match r2 with
              | String c3 r3 => if isWhite3 c c2 c3 then trimStart r3 else s
              | EmptyString => s
              end
        | EmptyString => s
        end
  | EmptyString => EmptyString
  end.

(** Value of [c] as a digit of the given radix, if it is one. *)
Definition digitVal (radix : Z) (c : ascii) : option Z :=
  let n := code c in
  let v :=
    if (48 <=? n) && (n <=? 57) then Some (n - 48)
    else if (97 <=? n) && (n <=? 122) then Some (n - 87)
    else if (65 <=? n) && (n <=? 90) then Some (n - 55)
    else None in
  match v with
  | Some d => if d <? radix then Some d else None
  | None => None
  end.

(** Value of the longest prefix of [s] made of digits; [acc] is [None]
    until a first digit has been read. *)
Fixpoint digitsPrefix (radix : Z) (acc : option Z) (s : string) : option Z :=
  match s with
  | String c r =>
      match digitVal radix c with
      | Some d =>
          digitsPrefix radix
            (Some (match acc with Some a => a * radix + d | None => d end)) r
      | None => acc
      end
  | EmptyString => acc
  end.

(** The sign of the numeral and what follows it. *)
Definition stripSign (s : string) : Z * string :=
  match s with
  | String "-"%char r => (-1, r)
  | String "+"%char r => (1, r)
  | _ => (1, s)
  end.

(** The radix, 16 after a [0x] or [0X] prefix and 10 otherwise, and what
    follows the prefix. *)
Definition stripPrefix (s : string) : Z * string :=
  match s with
  | String "0"%char (String "x"%char r) => (16, r)
  | String "0"%char (String "X"%char r) => (16, r)
  | _ => (10, s)
  end.

(** The mathematical integer [parseInt(s)] reads, with no radix argument;
    [None] when [s] starts with no digit. *)
Definition parseIntMath (s : string) : option Z :=
  let '(sign, s2) := stripSign (trimStart s) in
  let '(radix, s3) := stripPrefix s2 in
  option_map (Z.mul sign) (digitsPrefix radix None s3).

(** [parseInt(s)]: the Number for that integer, or [NaN].  (Past twenty
    significant decimal digits the language lets an engine read the later
    digits as zeros; the integer is rounded here as it stands.) *)
Definition parseInt (s : string) : number :=
  match parseIntMath s with
  | Some v => toNumber v
  | None => NaN
  end.

(** [n || dflt]: [NaN] and zero are falsy. *)
Definition orDefault (n : number) (dflt : Z) : number :=
  match n with
  | NaN => Finite dflt
  | Finite v => if v =? 0 then Finite dflt else Finite v
  | Infinity negative => Infinity negative
  end.

(** The double [z] rounds back from the integer [c]. *)
Definition roundsTo (c z : Z) : bool :=
  match nearestDouble c with
  | Some w => w =? z
  | None => false
  end.

(** The least [n], from the given one on, with [z < 10 ^ n]. *)
Fixpoint countDigits (fuel : nat) (n : Z) (z : Z) : Z :=
  match fuel with
  | O => n
  | S f => if z <? 10 ^ n then n else countDigits f (n + 1) z
  end.

(** The integer the text of the double [z] denotes, for [z] of [n] digits
    from 2^53 on: the multiple of [10 ^ (n - k)] with the least [k] that
    rounds back to [z], the closest one if two do, the one with the even
    multiplier if they are as close. *)
Fixpoint shortestDecimal (fuel : nat) (k n z : Z) : Z :=
  match fuel with
  | O => z
  | S f =>
      let p := 10 ^ (n - k) in
      let lo := (z / p) * p in
      let hi := lo + p in
      match roundsTo lo z, roundsTo hi z with
      | true, true =>
          if z - lo <? hi - z then lo
          else if hi - z <? z - lo then hi
          else if Z.even (z / p) then lo else hi
      | true, false => lo
      | false, true => hi
      | false, false => shortestDecimal f (k + 1) n z
      end
  end.

(** The template literal [`${n}`] read as a count: the integer its text
    denotes when the text is the plain decimal numeral of a non-negative
    integer, and [None] when it is anything else (a minus sign, the
    exponent notation used from 1e21 on, [Infinity], [NaN]). *)
Definition templateInteger (n : number) : option Z :=
  match n with
  | Finite z =>
      if z <? 0 then None
      else if z <? twoTo53 then Some z
      else if z <? 10 ^ 21
           then Some (shortestDecimal 21 1 (countDigits 22 1 z) z)
           else None
  | _ => None
  end.

(** The decimal numeral of an integer, as a caller writes it in the
    query string. *)
Definition numeral (n : Z) : string := NilZero.string_of_int (Z.to_int n).

Definition hexVal (c : ascii) : option Z := digitVal 16 c.

Definition byteChar (b : Z) : ascii := ascii_of_nat (Z.to_nat b).

Definition inRange (lo hi b : Z) : bool := (lo <=? b) && (b <=? hi).

(** [decodeURIComponent] on a string held as its UTF-8 bytes.  [need] is
    the number of continuation bytes still owed by the escape sequence
    being read and [lo], [hi] bound the next one, so that only well-formed
    UTF-8 is accepted; anything else is the [URIError]. *)
Fixpoint decodeFrom (need : nat) (lo hi : Z) (s : string) : result string :=
  match s with
  | EmptyString =>
      match need with
      | O => Ok EmptyString
      | S _ => Throw "URI malformed"
      end
  | String c rest =>
      if Ascii.eqb c "%"%char then
        match rest with
        | String h1 (String h2 rest') =>
            match hexVal h1, hexVal h2 with
            | Some a, Some b =>
                let B := 16 * a + b in
                let emit n l h :=
                  bind (decodeFrom n l h rest')
                       (fun t => Ok (String (byteChar B) t)) in
                match need with
                | O =>
                    if B <? 128 then emit 0%nat 128 191
                    else if inRange 194 223 B then emit 1%nat 128 191
                    else if B =? 224 then emit 2%nat 160 191
                    else if inRange 225 236 B then emit 2%nat 128 191
                    else if B =? 237 then emit 2%nat 128 159
                    else if inRange 238 239 B then emit 2%nat 128 191
                    else if B =? 240 then emit 3%nat 144 191
                    else if inRange 241 243 B then emit 3%nat 128 191
                    else if B =? 244 then emit 3%nat 128 143
                    else Throw "URI malformed"
                | S n =>
                    if inRange lo hi B then emit n 128 191
                    else Throw "URI malformed"
                end
            | _, _ => Throw "URI malformed"
            end
        | _ => Throw "URI malformed"
        end
      else
        match need with
        | O => bind (decodeFrom 0%nat 128 191 rest)
                    (fun t => Ok (String c t))
        | S _ => Throw "URI malformed"
        end
  end.

Definition decodeURIComponent (s : string) : result string :=
  decodeFrom 0%nat 128 191 s.

End Js.

Import Js.

Declare Scope js_scope.
Delimit Scope js_scope with js.
Notation "x <- e ;; k" := (bind e (fun x => k))
  (at level 61, e at next level, right associativity) : js_scope.
Local Open Scope js_scope.

(** ** The store: a Cosmos DB container of aggregate records *)

Module Cosmos.

(** One aggregate window of one location.  The handlers read [location],
    [windowEnd] and [safetyStatus] only.  [windowEnd] is the instant the
    stored timestamp denotes, in seconds, so that the store's order on it
    is [<=]; the measured averages, minima and maxima are carried in
    [measurements] (field name, value in hundredths) and forwarded as they
    are. *)
Record Doc : Type := mkDoc {
  location : string;
  windowEnd : Z;
  safetyStatus : jsval;
  readingCount : Z;
  measurements : list (string * Z)
}.

(** The container: its documents, and for each location parameter the
    error with which a query for it is rejected while the store is out of
    reach, if it is. *)
Record Container : Type := mkContainer {
  docs : list Doc;
  outage : string -> option string
}.

(** [SELECT TOP top ... WHERE c.location = @location
    ORDER BY c.windowEnd DESC]. *)
Record QuerySpec : Type := mkQuery {
  top : number;
  locationParam : string
}.

Definition atLocation (loc : string) (d : Doc) : bool :=
  String.eqb (location d) loc.

Fixpoint insertDesc (d : Doc) (l : list Doc) : list Doc :=
  match l with
  | [] => [d]
  | x :: r =>
      if windowEnd x <=? windowEnd d then d :: l else x :: insertDesc d r
  end.

Definition orderByWindowEndDesc (l : list Doc) : list Doc :=
  fold_right insertDesc [] l.

(** [container.items.query(querySpec).fetchAll()], selecting [*]: the
    promise is rejected while the store is out of reach for the location,
    and when what the template put after [TOP] is not the numeral of a
    non-negative integer, which the query grammar does not admit;
    otherwise it resolves to that many first documents of the location,
    newest window first. *)
Definition fetchAll (c : Container) (q : QuerySpec) : result (list Doc) :=
  match outage c (locationParam q) with
  | Some message => Throw message
  | None =>
      match templateInteger (top q) with
      | None => Throw "Syntax error, incorrect syntax near 'TOP'."
      | Some n =>
          Ok (firstn (Z.to_nat n)
                (orderByWindowEndDesc
                   (filter (atLocation (locationParam q)) (docs c))))
      end
  end.

(** The same query selecting [c.safetyStatus]: each resource is an object
    holding that field alone. *)
Definition fetchAllSafetyStatus (c : Container) (q : QuerySpec)
  : result (list jsval) :=
  resources <- fetchAll c q ;;
  Ok (map safetyStatus resources).

End Cosmos.

Import Cosmos.

(** ** The Express handlers *)

Module Server.

Record Breakdown : Type := mkBreakdown {
  safe : Z;
  caution : Z;
  unsafe : Z;
  total : Z
}.

(** The JSON bodies the handlers send. *)
Inductive Body : Type :=
| LatestBody (timestamp : string) (data : list Doc)
| HistoryBody (location : string) (dataPoints : nat) (data : list Doc)
| StatusBody (timestamp : string) (overallStatus : string)
             (breakdown : Breakdown)
| ErrorBody (error : string) (message : string).

Record Response : Type := mkResponse {
  statusCode : Z;
  body : Body
}.

(** The [success] field of a body. *)
Definition success (b : Body) : bool :=
  match b with
  | ErrorBody _ _ => false
  | _ => true
  end.

(** [res.json(b)] and [res.status(500).json(b)]. *)
Definition json (b : Body) : Response := mkResponse 200 b.
Definition status500 (b : Body) : Response := mkResponse 500 b.

(** [try { ... res.json(b) } catch (error) { res.status(500).json(...) }] *)
Definition tryCatch (r : result Body) (error : string) : Response :=
  match r with
  | Ok b => json b
  | Throw message => status500 (ErrorBody error message)
  end.

Definition locations : list string := ["Dow's Lake"; "Fifth Avenue"; "NAC"].

(** The [for (const location of locations)] loop of [/api/latest]. *)
Fixpoint latestLoop (c : Container) (locs : list string)
         (latestData : list Doc) : result (list Doc) :=
  match locs with
  | [] => Ok latestData
  | loc :: rest =>
      resources <- fetchAll c (mkQuery (Finite 1) loc) ;;
      latestLoop c rest
        (match resources with
         | r0 :: _ => latestData ++ [r0]
         | [] => latestData
         end)
  end.

(** [GET /api/latest]; [now] is [new Date().toISOString()]. *)
Definition api_latest (now : string) (c : Container) : Response :=
  tryCatch
    (latestData <- latestLoop c locations [] ;;
     Ok (LatestBody now latestData))
    "Failed to fetch latest data".

(** [req.params.location] and [req.query.limit]. *)
Record HistoryRequest : Type := mkHistoryRequest {
  paramLocation : string;
  queryLimit : qval
}.

(** [parseInt(req.query.limit) || 12] *)
Definition resolveLimit (q : qval) : number :=
  orDefault (parseInt (toString q)) 12.

(** [GET /api/history/:location] *)
Definition api_history (c : Container) (req : HistoryRequest) : Response :=
  tryCatch
    (loc <- decodeURIComponent (paramLocation req) ;;
     let limit := resolveLimit (queryLimit req) in
     resources <- fetchAll c (mkQuery limit loc) ;;
     let resources := List.rev resources in
     Ok (HistoryBody loc (List.length resources) resources))
    "Failed to fetch historical data".

(** The three counters of [/api/status]. *)
Record Counts : Type := mkCounts {
  safeCount : Z;
  cautionCount : Z;
  unsafeCount : Z
}.

(** The [if]/[else if]/[else] that tallies one status. *)
Definition tally (status : jsval) (n : Counts) : Counts :=
  if strictEqStr status "Safe"
  then mkCounts (safeCount n + 1) (cautionCount n) (unsafeCount n)
  else if strictEqStr status "Caution"
  then mkCounts (safeCount n) (cautionCount n + 1) (unsafeCount n)
  else mkCounts (safeCount n) (cautionCount n) (unsafeCount n + 1).

Fixpoint statusLoop (c : Container) (locs : list string) (n : Counts)
  : result Counts :=
  match locs with
  | [] => Ok n
  | loc :: rest =>
      resources <- fetchAllSafetyStatus c (mkQuery (Finite 1) loc) ;;
      statusLoop c rest
        (match resources with
         | status :: _ => tally status n
         | [] => n
         end)
  end.

Definition rollUp (n : Counts) : string :=
  if unsafeCount n >? 0 then "Unsafe"
  else if cautionCount n >? 0 then "Caution"
  else "Safe".

(** [GET /api/status] *)
Definition api_status (now : string) (c : Container) : Response :=
  tryCatch
    (n <- statusLoop c locations (mkCounts 0 0 0) ;;
     let overallStatus := rollUp n in
     Ok (StatusBody now overallStatus
           (mkBreakdown (safeCount n) (cautionCount n) (unsafeCount n)
              (Z.of_nat (List.length locations)))))
    "Failed to fetch system status".

End Server.

Import Server.

(** ** The client's history poller *)

Module Client.

(** How a [fetch] of [/api/history/...] followed by [response.json()]
    settles: the parsed body's [success] and [data], or a rejection, after
    which the [catch] branch draws [mockData] (built from [Date.now()] and
    [Math.random()], so supplied here by the environment). *)
Inductive Outcome : Type :=
| Resolved (success : bool) (data : list Doc)
| Rejected (mockData : list Doc).

(** The page: the data the two charts were last built from, the value of
    [locationSelect], and the locations of the history fetches awaiting
    their response, oldest first. *)
Record Page : Type := mkPage {
  charts : option (list Doc);
  selected : string;
  inflight : list string
}.

(** What the event loop runs next: the [change] listener of
    [locationSelect] for a newly selected location, the interval callback
    of [startAutoRefresh] reaching its history reload, or the continuation
    of the [i]-th history fetch in flight, whose response has arrived. *)
Inductive Event : Type :=
| Change (loc : string)
| Tick
| Arrive (i : nat).

(** [updateCharts(data)]: both charts are destroyed and rebuilt. *)
Definition updateCharts (data : list Doc) (p : Page) : Page :=
  mkPage (Some data) (selected p) (inflight p).

(** [loadHistoricalData(location)] up to its first [await]. *)
Definition loadHistoricalData (loc : string) (p : Page) : Page :=
  mkPage (charts p) (selected p) (inflight p ++ [loc]).

Fixpoint dropNth {A : Type} (i : nat) (l : list A) : list A :=
  match i, l with
  | _, [] => []
  | O, _ :: r => r
  | S j, x :: r => x :: dropNth j r
  end.

(** [loadHistoricalData] from its [await] on, once the fetch has settled. *)
Definition resume (o : Outcome) (p : Page) : Page :=
  match o with
  | Resolved ok data => if ok then updateCharts data p else p
  | Rejected mockData => updateCharts mockData p
  end.

Section Network.

(** What a history fetch for a location settles to. *)
Variable network : string -> Outcome.

Definition step (p : Page) (e : Event) : Page :=
  match e with
  | Change loc =>
      loadHistoricalData loc (mkPage (charts p) loc (inflight p))
  | Tick => loadHistoricalData (selected p) p
  | Arrive i =>
      match nth_error (inflight p) i with
      | Some loc =>
          resume (network loc)
            (mkPage (charts p) (selected p) (dropNth i (inflight p)))
      | None => p
      end
  end.

Definition run (p : Page) (es : list Event) : Page :=
  fold_left step es p.

End Network.

(** The network in front of a server holding container [c]: the client
    sends [encodeURIComponent(location)] and no [limit], and Express hands
    the handler the path segment decoded again. *)
Definition served (c : Container) (loc : string) : Outcome :=
  match body (api_history c (mkHistoryRequest loc QUndefined)) with
  | HistoryBody _ _ data => Resolved true data
  | _ => Resolved false []
  end.

End Client.

Import Client.

(** ** Sample containers *)

Module Samples.

Definition window (loc : string) (t : Z) (status : string) : Doc :=
  mkDoc loc t (JStr status) 60
    [("avgIceThickness", 3120); ("minIceThickness", 2950);
     ("maxIceThickness", 3300); ("avgSurfaceTemperature", -540);
     ("maxSnowAccumulation", 210); ("avgExternalTemperature", -1180)].

Definition T : Z := 1764590400.

Definition reachable : string -> option string := fun _ => None.

(** Three windows for Dow's Lake five minutes apart, one for Fifth
    Avenue, none for NAC. *)
Definition canalDocs : list Doc :=
  [ window "Dow's Lake" (T + 300) "Safe";
    window "Fifth Avenue" T "Caution";
    window "Dow's Lake" T "Safe";
    window "Dow's Lake" (T + 600) "Safe" ].

Definition canal : Container := mkContainer canalDocs reachable.

(** The same documents while queries for Fifth Avenue are refused. *)
Definition canalFifthDown : Container :=
  mkContainer canalDocs
    (fun loc =>
       if String.eqb loc "Fifth Avenue"
       then Some "connect ECONNREFUSED" else None).

(** A latest record whose status is none of the three known values. *)
Definition canalOddStatus : Container :=
  mkContainer
    [ window "Dow's Lake" T "Safe"; window "NAC" T "Thin" ] reachable.

Definition onlyDowsLake (status : string) : Container :=
  mkContainer [ window "Dow's Lake" T status ] reachable.


(** An older record of unrecognised status under a newer one. *)
Definition canalOldThin : Container :=
  mkContainer
    [ window "Dow's Lake" T "Thin"; window "Dow's Lake" (T + 300) "Safe" ]
    reachable.

(** One location of each status. *)
Definition canalMixed : Container :=
  mkContainer
    [ window "Dow's Lake" T "Safe"; window "Fifth Avenue" T "Unsafe";
      window "NAC" T "Caution" ] reachable.

End Samples.

Import Samples.

(** ** Notions the properties are stated with *)

(** What [SELECT TOP 1 ... ORDER BY c.windowEnd DESC] yields for a location
    while the store is reachable: its newest record, if it has any. *)
Definition newest (c : Container) (loc : string) : list Doc :=
  firstn 1 (orderByWindowEndDesc (filter (atLocation loc) (docs c))).

(** The store is reachable for every location of [locs]. *)
Definition reachableFor (c : Container) (locs : list string) : Prop :=
  forall loc, In loc locs -> outage c loc = None.

(** Windows listed newest first, and oldest first without repetition. *)
Definition descending (l : list Doc) : Prop :=
  StronglySorted (fun a b => windowEnd b <= windowEnd a) l.



(** What the snapshot [data] must hold for location [loc]: when [loc] has a
    stored record, exactly one entry, a stored record of [loc] whose window
    end no other record of [loc] exceeds; when it has none, no entry. *)
Definition snapshotEntryFor (c : Container) (data : list Doc) (loc : string)
  : Prop :=
  ((exists d, In d (docs c) /\ location d = loc) ->
   exists e,
     filter (atLocation loc) data = [e] /\
     In e (docs c) /\ location e = loc /\
     forall d, In d (docs c) -> location d = loc ->
               windowEnd d <= windowEnd e)
  /\
  ((forall d, In d (docs c) -> location d <> loc) ->
   filter (atLocation loc) data = []).

(** The [safetyStatus] of the newest record of a location, if it has one. *)
Definition latestStatus (c : Container) (loc : string) : option jsval :=
  option_map safetyStatus (hd_error (newest c loc)).

(** The latest status of [loc] is the string [lit]. *)
Definition latestIs (c : Container) (lit : string) (loc : string) : bool :=
  match latestStatus c loc with
  | Some v => strictEqStr v lit
  | None => false
  end.

(** [loc] has a latest status and it is neither [Safe] nor [Caution]. *)
Definition latestNeitherSafeNorCaution (c : Container) (loc : string) : bool :=
  match latestStatus c loc with
  | Some v => negb (strictEqStr v "Safe") && negb (strictEqStr v "Caution")
  | None => false
  end.

Definition hasData (c : Container) (loc : string) : bool :=
  match latestStatus c loc with
  | Some _ => true
  | None => false
  end.

(** Number of locations of [locs] that satisfy [p]. *)
Definition countOf (p : string -> bool) (locs : list string) : Z :=
  Z.of_nat (List.length (filter p locs)).

(** One of the three values of the data model. *)
Definition recognised (v : jsval) : Prop :=
  v = JStr "Safe" \/ v = JStr "Caution" \/ v = JStr "Unsafe".

(** Every latest status of a known location is one of the three values. *)
Definition knownStatuses (c : Container) : Prop :=
  forall loc v,
    In loc locations -> latestStatus c loc = Some v -> recognised v.

(** Evaluates the comparisons of string literals in the goal. *)
Ltac eval_eqb :=
  repeat match goal with
         | |- context [String.eqb ?a ?b] =>
             let v := eval vm_compute in (String.eqb a b) in
             change (String.eqb a b) with v
         end;
  cbv iota.

(** ** The browser functions the page calls *)

Module Browser.

Definition lowerChar (c : ascii) : ascii :=
  if inRange 65 90 (code c) then byteChar (code c + 32) else c.

(** [toLowerCase] on the letters of ASCII; other bytes are kept, which
    leaves the comparisons with ['safe'] and ['unsafe'] as they are, no
    character beyond ASCII lowering to a letter of these words. *)
Fixpoint toLowerCase (s : string) : string :=
  match s with
  | EmptyString => EmptyString
  | String c r => String (lowerChar c) (toLowerCase r)
  end.

(** The window's interval timers: the handles still scheduled, and the
    handle the next [setInterval] returns (handles are positive). *)
Record Timers : Type := mkTimers {
  live : list Z;
  nextHandle : Z
}.

Definition setInterval (t : Timers) : Z * Timers :=
  (nextHandle t, mkTimers (nextHandle t :: live t) (nextHandle t + 1)).

Definition clearInterval (id : Z) (t : Timers) : Timers :=
  mkTimers (filter (fun h => negb (h =? id)) (live t)) (nextHandle t).

End Browser.

Import Browser.

(** ** The status badge and the refresh timer of the page *)

Module Dashboard.

(** The element [overallStatus]. *)
Record Badge : Type := mkBadge {
  textContent : string;
  className : string
}.

(** [updateSystemStatus(status)]: the text, then the class list reset to
    [status-value] plus one of [safe], [unsafe], [caution]. *)
Definition updateSystemStatus (status : string) (el : Badge) : Badge :=
  mkBadge status
    ("status-value " ++
     (if String.eqb (toLowerCase status) "safe" then "safe"
      else if String.eqb (toLowerCase status) "unsafe" then "unsafe"
           else "caution")).

(** How the fetch of [/api/status] settles: the parsed body's [success]
    and [overallStatus] (absent from a failure body), or a rejection. *)
Inductive StatusOutcome : Type :=
| StatusResolved (success : bool) (overallStatus : option string)
| StatusRejected.

(** The second [try] block of [loadLatestData], which alone touches the
    badge.  [updateSystemStatus(undefined)] throws on [toLowerCase], and
    the [catch] then writes the fallback as for a rejection. *)
Definition loadLatestData_status (o : StatusOutcome) (el : Badge) : Badge :=
  match o with
  | StatusResolved true (Some status) => updateSystemStatus status el
  | StatusResolved true None => updateSystemStatus "OPERATIONAL" el
  | StatusResolved false _ => el
  | StatusRejected => updateSystemStatus "OPERATIONAL" el
  end.

(** The fetch of [/api/status] in front of a server holding [c]. *)
Definition servedStatus (now : string) (c : Container) : StatusOutcome :=
  match body (api_status now c) with
  | StatusBody _ overallStatus _ => StatusResolved true (Some overallStatus)
  | _ => StatusResolved false None
  end.

(** The global [refreshTimer] ([None] is [null]) and the window's timers. *)
Record Refresher : Type := mkRefresher {
  refreshTimer : option Z;
  timers : Timers
}.

(** [startAutoRefresh()]: [if (refreshTimer) clearInterval(refreshTimer)],
    then [refreshTimer = setInterval(...)]. *)
Definition startAutoRefresh (r : Refresher) : Refresher :=
  let t :=
    match refreshTimer r with
    | Some id => if id =? 0 then timers r else clearInterval id (timers r)
    | None => timers r
    end in
  let '(id, t') := setInterval t in
  mkRefresher (Some id) t'.

End Dashboard.

Import Dashboard.

(** ** Further notions *)

(** The error of the first location of [locs], in order, for which the
    store is out of reach. *)
Fixpoint firstOutage (c : Container) (locs : list string) : option string :=
  match locs with
  | [] => None
  | loc :: rest =>
      match outage c loc with
      | Some m => Some m
      | None => firstOutage c rest
      end
  end.

Fixpoint percentFree (s : string) : bool :=
  match s with
  | EmptyString => true
  | String c r => negb (Ascii.eqb c "%") && percentFree r
  end.

(** Text after a decimal numeral that ends it for [parseInt]: nothing, or
    a first character that is neither a decimal digit nor [x] or [X]. *)
Definition endsNumeral (r : string) : bool :=
  match r with
  | EmptyString => true
  | String c _ =>
      match digitVal 10 c with
      | Some _ => false
      | None => negb (Ascii.eqb c "x") && negb (Ascii.eqb c "X")
      end
  end.

(** The charts, if drawn, hold at most [n] points. *)
Definition chartsWithin (n : nat) (p : Page) : Prop :=
  match charts p with
  | Some data => (List.length data <= n)%nat
  | None => True
  end.

(** Evaluates the digit test of a character literal in the goal. *)
Ltac eval_digit :=
  match goal with
  | |- context [digitVal 10 ?c] =>
      let v := eval vm_compute in (digitVal 10 c) in
      change (digitVal 10 c) with v; cbv iota beta
  end.

(** Splits the decoder's tests and applies the induction hypothesis [IH]
    to what follows an escape or a plain character. *)
Ltac decode_cases IH :=
  repeat match goal with
         | |- context [if ?b then _ else _] => destruct b
         end;
  try discriminate;
  match goal with
  | |- bind (decodeFrom ?n ?l ?h ?r) _ = Ok _ -> _ =>
      let t' := fresh "t" in
      let E := fresh "E" in
      destruct (decodeFrom n l h r) as [ t' | ] eqn:E;
      cbn [bind]; [ | discriminate ];
      intros [= <-];
      destruct (IH r ltac:(lia) _ _ _ _ E) as [ ? ? ];
      cbn [String.length percentFree]
  end.

(** * Properties *)

(** ** Limit resolution *)










(** ** Rounding to a double *)

Lemma toNumber_exact (n : Z) :
  - twoTo53 < n < twoTo53 -> toNumber n = Finite n.
Proof.
  intro H. unfold toNumber, nearestDouble.
  assert (E : (Z.abs n <? twoTo53) = true) by (apply Z.ltb_lt; lia).
  rewrite E. f_equal. destruct (n <? 0) eqn:En;
    [ apply Z.ltb_lt in En | apply Z.ltb_ge in En ]; lia.
Qed.




(** The value [parseInt(req.query.limit) || 12] is never falsy. *)
Lemma resolveLimit_nonzero (q : qval) : resolveLimit q <> Finite 0.
Proof.
  unfold resolveLimit, orDefault.
  destruct (parseInt (toString q)) as [ | v | neg ]; try discriminate.
  destruct (v =? 0) eqn:E; [ discriminate | ].
  apply Z.eqb_neq in E. congruence.
Qed.




(** ** The count after [TOP] *)

Lemma roundsTo_zero (z : Z) : 0 < z -> roundsTo 0 z = false.
Proof.
  intro H. unfold roundsTo. change (nearestDouble 0) with (Some 0).
  apply Z.eqb_neq. lia.
Qed.

Lemma shortestDecimal_pos (fuel : nat) (k n z : Z) :
  0 < z -> 0 < shortestDecimal fuel k n z.
Proof.
  intro Hz. revert k.
  induction fuel as [ | f IH ]; intro k; cbn [shortestDecimal];
    [ exact Hz | ].
  cbv zeta.
  set (p := 10 ^ (n - k)).
  assert (Hp : 0 <= p) by (unfold p; apply Z.pow_nonneg; lia).
  assert (Hlo : 0 <= z / p * p).
  { destruct (Z.eq_dec p 0) as [ -> | Hne ]; [ lia | ].
    apply Z.mul_nonneg_nonneg; [ apply Z.div_pos; lia | lia ]. }
  pose proof (roundsTo_zero z Hz) as H0.
  destruct (roundsTo (z / p * p) z) eqn:El;
    destruct (roundsTo (z / p * p + p) z) eqn:Eh;
    try apply IH;
    repeat match goal with
           | |- context [if ?b then _ else _] => destruct b
           end;
    match goal with
    | |- 0 < ?x =>
        destruct (Z.eq_dec x 0) as [ E0 | E0 ]; [ | lia ];
        rewrite E0 in *; congruence
    end.
Qed.

Lemma templateInteger_exact (z : Z) :
  0 <= z < twoTo53 -> templateInteger (Finite z) = Some z.
Proof.
  intro H. unfold templateInteger.
  destruct (z <? 0) eqn:E; [ apply Z.ltb_lt in E; lia | ].
  destruct (z <? twoTo53) eqn:E'; [ reflexivity | apply Z.ltb_ge in E'; lia ].
Qed.

Lemma templateInteger_pos (n : number) (k : Z) :
  templateInteger n = Some k -> n <> Finite 0 -> 0 < k.
Proof.
  destruct n as [ | z | neg ]; cbn [templateInteger]; try discriminate.
  destruct (z <? 0) eqn:E; [ discriminate | ]. apply Z.ltb_ge in E.
  destruct (z <? twoTo53) eqn:E'.
  - intros [= <-] Hn.
    destruct (Z.eq_dec z 0) as [ -> | Hz ]; [ congruence | lia ].
  - apply Z.ltb_ge in E'.
    destruct (z <? 10 ^ 21); [ | discriminate ].
    intros H _.
    replace k with (shortestDecimal 21 1 (countDigits 22 1 z) z)
      by congruence.
    apply shortestDecimal_pos. unfold twoTo53 in E'. lia.
Qed.

Lemma templateInteger_nonneg (n : number) (k : Z) :
  templateInteger n = Some k -> 0 <= k.
Proof.
  intro H. destruct n as [ | z | neg ]; try discriminate H.
  destruct (Z.eq_dec z 0) as [ -> | Hz ].
  - cbn in H. injection H as <-. lia.
  - enough (0 < k) by lia. apply (templateInteger_pos (Finite z) k H).
    congruence.
Qed.

(** ** The store *)

Lemma fetchAll_reachable (c : Container) (n : number) (k : Z)
      (loc : string) :
  outage c loc = None -> templateInteger n = Some k ->
  fetchAll c (mkQuery n loc)
  = Ok (firstn (Z.to_nat k)
          (orderByWindowEndDesc (filter (atLocation loc) (docs c)))).
Proof.
  intros Hout Hn. unfold fetchAll. cbn [locationParam top].
  now rewrite Hout, Hn.
Qed.

Lemma fetchAll_top1 (c : Container) (loc : string) :
  outage c loc = None ->
  fetchAll c (mkQuery (Finite 1) loc)
  = Ok (firstn (Z.to_nat 1)
          (orderByWindowEndDesc (filter (atLocation loc) (docs c)))).
Proof. intro Hout. now apply fetchAll_reachable. Qed.

Lemma fetchAll_outage (c : Container) (n : number) (loc m : string) :
  outage c loc = Some m -> fetchAll c (mkQuery n loc) = Throw m.
Proof.
  intro Hout. unfold fetchAll. cbn [locationParam]. now rewrite Hout.
Qed.

Lemma fetchAll_ok_inv (c : Container) (q : QuerySpec) (rs : list Doc) :
  fetchAll c q = Ok rs ->
  outage c (locationParam q) = None /\
  exists k,
    templateInteger (top q) = Some k /\
    rs = firstn (Z.to_nat k)
           (orderByWindowEndDesc
              (filter (atLocation (locationParam q)) (docs c))).
Proof.
  unfold fetchAll. destruct (outage c (locationParam q)); [ discriminate | ].
  destruct (templateInteger (top q)) as [k|]; [ | discriminate ].
  intros [= <-]. split; [ reflexivity | ]. now exists k.
Qed.

Lemma filter_atLocation_none (loc : string) (l : list Doc) :
  (forall d, In d l -> location d <> loc) -> filter (atLocation loc) l = [].
Proof.
  induction l as [ | x l IH ]; intro H; [ reflexivity | ].
  cbn [filter]. unfold atLocation at 1.
  destruct (String.eqb_spec (location x) loc) as [E|E].
  - exfalso. apply (H x); [ now left | exact E ].
  - apply IH. intros d Hd. apply H. now right.
Qed.

(** ** The history handler *)

Lemma api_history_inv (c : Container) (req : HistoryRequest)
      (loc : string) (n : nat) (data : list Doc) :
  body (api_history c req) = HistoryBody loc n data ->
  exists rs,
    decodeURIComponent (paramLocation req) = Ok loc /\
    fetchAll c (mkQuery (resolveLimit (queryLimit req)) loc) = Ok rs /\
    data = List.rev rs /\ n = List.length data.
Proof.
  unfold api_history.
  destruct (decodeURIComponent (paramLocation req)) as [l|m] eqn:Hd;
    cbn [bind tryCatch]; [ | discriminate ].
  destruct (fetchAll c (mkQuery (resolveLimit (queryLimit req)) l))
    as [rs|m] eqn:Hq;
    cbn [bind tryCatch json status500 body]; [ | discriminate ].
  intros [= <- <- <-]. exists rs. repeat split; auto.
Qed.

Lemma history_length_le_limit (c : Container) (req : HistoryRequest)
      (loc : string) (n : nat) (data : list Doc) :
  body (api_history c req) = HistoryBody loc n data ->
  exists k,
    templateInteger (resolveLimit (queryLimit req)) = Some k /\
    Z.of_nat (List.length data) <= k.
Proof.
  intro H. apply api_history_inv in H as (rs & _ & Hq & -> & _).
  apply fetchAll_ok_inv in Hq as (_ & k & Hk & ->). cbn [top] in *.
  exists k. split; [ exact Hk | ].
  pose proof (templateInteger_nonneg _ k Hk).
  rewrite length_rev, length_firstn. lia.
Qed.

(** C10: in every successful response of [GET /api/history/:location],
    [dataPoints] is the length of the [data] array of the same response. *)
Theorem history_dataPoints_is_data_length
        (c : Container) (req : HistoryRequest)
        (loc : string) (n : nat) (data : list Doc) :
  body (api_history c req) = HistoryBody loc n data ->
  n = List.length data.
Proof.
  intro H. apply api_history_inv in H as (rs & _ & _ & _ & Hn). exact Hn.
Qed.

Lemma history_dataPoints_witness :
  body (api_history canal (mkHistoryRequest "Dow's Lake" (QStr "2")))
  = HistoryBody "Dow's Lake" 2
      [ window "Dow's Lake" (T + 300) "Safe";
        window "Dow's Lake" (T + 600) "Safe" ]
  /\ 2%nat = List.length [ window "Dow's Lake" (T + 300) "Safe";
                           window "Dow's Lake" (T + 600) "Safe" ].
Proof.
  split; [ reflexivity | ].
  apply (history_dataPoints_is_data_length canal
           (mkHistoryRequest "Dow's Lake" (QStr "2")) "Dow's Lake").
  reflexivity.
Defined.


(** What [parseInt] makes of limits a double cannot hold, and of white
    space beyond ASCII: 2^53 + 1 is read as 2^53, a numeral of 400 digits
    as [Infinity], and a no-break space before the digits is skipped. *)
Lemma resolveLimit_double_examples :
  resolveLimit (QStr "9007199254740993") = Finite 9007199254740992 /\
  resolveLimit (QStr (numeral (10 ^ 400))) = Infinity false /\
  resolveLimit
    (QStr (String (ascii_of_nat 194) (String (ascii_of_nat 160) "50")))
  = Finite 50.
Proof. repeat split; vm_compute; reflexivity. Qed.


(** ** Ordering by window end *)

Lemma insertDesc_perm (d : Doc) (l : list Doc) :
  Permutation (insertDesc d l) (d :: l).
Proof.
  induction l as [ | x l IH ]; cbn [insertDesc]; [ reflexivity | ].
  destruct (windowEnd x <=? windowEnd d); [ reflexivity | ].
  rewrite IH. apply perm_swap.
Qed.

Lemma orderByWindowEndDesc_perm (l : list Doc) :
  Permutation (orderByWindowEndDesc l) l.
Proof.
  induction l as [ | x l IH ]; cbn [orderByWindowEndDesc fold_right];
    [ reflexivity | ].
  fold (orderByWindowEndDesc l). rewrite insertDesc_perm. now constructor.
Qed.

Lemma insertDesc_descending (d : Doc) (l : list Doc) :
  descending l -> descending (insertDesc d l).
Proof.
  unfold descending.
  induction l as [ | x l IH ]; intro H; cbn [insertDesc].
  - repeat constructor.
  - inversion H as [ | ? ? Hl Hx ]; subst.
    destruct (windowEnd x <=? windowEnd d) eqn:E.
    + apply Z.leb_le in E. constructor; [ exact H | ].
      constructor; [ exact E | ].
      rewrite Forall_forall in *. intros y Hy. specialize (Hx y Hy). lia.
    + apply Z.leb_gt in E. constructor; [ now apply IH | ].
      rewrite Forall_forall in *. intros y Hy.
      apply (Permutation_in _ (insertDesc_perm d l)) in Hy.
      destruct Hy as [ <- | Hy ]; [ lia | now apply Hx ].
Qed.

Lemma orderByWindowEndDesc_descending (l : list Doc) :
  descending (orderByWindowEndDesc l).
Proof.
  induction l as [ | x l IH ]; cbn [orderByWindowEndDesc fold_right].
  - constructor.
  - now apply insertDesc_descending.
Qed.


(** ** The newest record of a location *)

Lemma newest_stored (c : Container) (loc : string) (e : Doc) :
  In e (newest c loc) -> In e (docs c) /\ location e = loc.
Proof.
  unfold newest. intro H.
  assert (Hs : In e (orderByWindowEndDesc (filter (atLocation loc) (docs c)))).
  { destruct (orderByWindowEndDesc (filter (atLocation loc) (docs c)))
      as [ | x r ]; cbn [firstn In] in *; tauto. }
  apply (Permutation_in _ (orderByWindowEndDesc_perm _)) in Hs.
  apply filter_In in Hs as [Hin Hloc]. split; [ exact Hin | ].
  unfold atLocation in Hloc. now apply String.eqb_eq.
Qed.

Lemma newest_is_latest (c : Container) (loc : string) (d : Doc) :
  In d (docs c) -> location d = loc ->
  exists e, newest c loc = [e] /\ windowEnd d <= windowEnd e.
Proof.
  intros Hin Hloc. unfold newest.
  assert (Hs : In d (orderByWindowEndDesc (filter (atLocation loc) (docs c)))).
  { apply (Permutation_in _ (Permutation_sym (orderByWindowEndDesc_perm _))).
    apply filter_In. split; [ exact Hin | ].
    unfold atLocation. now apply String.eqb_eq. }
  pose proof (orderByWindowEndDesc_descending
                (filter (atLocation loc) (docs c))) as Hd.
  unfold descending in Hd.
  destruct (orderByWindowEndDesc (filter (atLocation loc) (docs c)))
    as [ | x r ]; [ contradiction | ].
  exists x. split; [ reflexivity | ].
  inversion Hd as [ | ? ? _ Hx ]; subst.
  destruct Hs as [ <- | Hs ]; [ lia | ].
  rewrite Forall_forall in Hx. now apply Hx.
Qed.

Lemma newest_none (c : Container) (loc : string) :
  (forall d, In d (docs c) -> location d <> loc) -> newest c loc = [].
Proof.
  intro H. unfold newest. now rewrite (filter_atLocation_none loc (docs c) H).
Qed.

Lemma filter_newest (c : Container) (loc loc' : string) :
  filter (atLocation loc) (newest c loc')
  = if String.eqb loc' loc then newest c loc' else [].
Proof.
  assert (H : forall e, In e (newest c loc') -> location e = loc')
    by (intros e He; now apply (newest_stored c loc' e)).
  destruct (String.eqb_spec loc' loc) as [ <- | Hne ].
  - induction (newest c loc') as [ | x l IH ]; [ reflexivity | ].
    cbn [filter]. unfold atLocation at 1.
    rewrite (H x (or_introl eq_refl)), String.eqb_refl. f_equal.
    apply IH. intros e He. apply H. now right.
  - apply filter_atLocation_none. intros e He. now rewrite (H e He).
Qed.

(** ** The latest-snapshot handler *)

Lemma latestLoop_reachable (c : Container) (locs : list string)
      (acc : list Doc) :
  reachableFor c locs ->
  latestLoop c locs acc = Ok (acc ++ flat_map (newest c) locs).
Proof.
  revert acc. induction locs as [ | loc locs IH ]; intros acc Hr.
  - cbn [latestLoop flat_map]. now rewrite app_nil_r.
  - cbn [latestLoop flat_map].
    rewrite fetchAll_top1 by (apply Hr; now left).
    cbn [bind]. rewrite IH by (intros l Hl; apply Hr; now right).
    change (Z.to_nat 1) with 1%nat. fold (newest c loc).
    f_equal. unfold newest.
    destruct (orderByWindowEndDesc (filter (atLocation loc) (docs c)))
      as [ | x r ]; cbn [firstn app]; [ reflexivity | ].
    now rewrite <- app_assoc.
Qed.

Lemma latestLoop_outage (c : Container) (locs : list string)
      (acc : list Doc) :
  ~ reachableFor c locs ->
  exists loc m, In loc locs /\ outage c loc = Some m /\
                latestLoop c locs acc = Throw m.
Proof.
  revert acc. induction locs as [ | loc locs IH ]; intros acc Hn.
  - exfalso. apply Hn. intros l [].
  - destruct (outage c loc) as [m|] eqn:Hout.
    + exists loc, m. split; [ now left | ]. split; [ exact Hout | ].
      cbn [latestLoop]. now rewrite (fetchAll_outage c _ loc m Hout).
    + cbn [latestLoop]. rewrite fetchAll_top1 by assumption.
      cbn [bind].
      match goal with
      | |- context [latestLoop c locs ?a] =>
          destruct (IH a) as (l & m & Hl & Hm & Ht)
      end.
      * intro Hr. apply Hn. intros l [ <- | Hl ]; [ exact Hout | now apply Hr ].
      * exists l, m. split; [ now right | ]. split; assumption.
Qed.

Lemma reachableFor_dec (c : Container) (locs : list string) :
  reachableFor c locs \/ ~ reachableFor c locs.
Proof.
  induction locs as [ | loc locs [ IH | IH ] ].
  - left. intros l [].
  - destruct (outage c loc) as [m|] eqn:Hout.
    + right. intro Hr. specialize (Hr loc (or_introl eq_refl)). congruence.
    + left. intros l [ <- | Hl ]; [ exact Hout | now apply IH ].
  - right. intro Hr. apply IH. intros l Hl. apply Hr. now right.
Qed.

(** C1, as stated, fails: with Fifth Avenue alone out of reach, and records
    stored for Dow's Lake, the whole operation answers 500 and
    [success:false] rather than the remaining records. *)
Lemma latest_single_outage_fails_whole :
  outage canalFifthDown "Dow's Lake" = None /\
  outage canalFifthDown "Fifth Avenue" = Some "connect ECONNREFUSED" /\
  outage canalFifthDown "NAC" = None /\
  api_latest "2025-12-01T12:00:00.000Z" canalFifthDown
  = mkResponse 500
      (ErrorBody "Failed to fetch latest data" "connect ECONNREFUSED") /\
  success (body (api_latest "2025-12-01T12:00:00.000Z" canalFifthDown))
  = false.
Proof. repeat split; reflexivity. Qed.

(** C1, amended: the latest-snapshot operation succeeds exactly when every
    per-location lookup succeeds; as soon as one lookup fails (and so also
    when all of them fail) the response is the failure, HTTP 500 with
    [success:false], carrying the message of a failed lookup. *)
Theorem api_latest_all_or_nothing (now : string) (c : Container) :
  (reachableFor c locations /\
   api_latest now c = mkResponse 200 (LatestBody now (flat_map (newest c) locations)) /\
   success (body (api_latest now c)) = true)
  \/
  (exists loc m,
      In loc locations /\ outage c loc = Some m /\
      api_latest now c
      = mkResponse 500 (ErrorBody "Failed to fetch latest data" m) /\
      success (body (api_latest now c)) = false).
Proof.
  unfold api_latest.
  destruct (reachableFor_dec c locations) as [ Hr | Hn ].
  - left. split; [ exact Hr | ].
    rewrite (latestLoop_reachable c locations [] Hr). split; reflexivity.
  - right. destruct (latestLoop_outage c locations [] Hn) as (l & m & Hl & Hm & Ht).
    exists l, m. rewrite Ht. repeat split; assumption || reflexivity.
Qed.

Lemma filter_flat_map {A B : Type} (f : B -> bool) (g : A -> list B)
      (l : list A) :
  filter f (flat_map g l) = flat_map (fun x => filter f (g x)) l.
Proof.
  induction l as [ | x l IH ]; cbn [flat_map]; [ reflexivity | ].
  now rewrite filter_app, IH.
Qed.

Lemma filter_snapshot (c : Container) (loc : string) :
  In loc locations ->
  filter (atLocation loc) (flat_map (newest c) locations) = newest c loc.
Proof.
  intro Hin. rewrite filter_flat_map. unfold locations in *.
  cbn [flat_map]. rewrite !filter_newest.
  destruct Hin as [ <- | [ <- | [ <- | [] ] ] ]; eval_eqb;
    cbn [app]; now rewrite ?app_nil_r.
Qed.

(** C5: while the store answers, the latest snapshot holds, for every known
    location with a stored record, exactly one entry, whose [windowEnd] is
    at least that of every stored record of the location; a known location
    with no record has no entry, and the response is a success all the
    same. *)
Theorem latest_snapshot_newest_per_location (now : string) (c : Container) :
  reachableFor c locations ->
  exists data,
    api_latest now c = mkResponse 200 (LatestBody now data) /\
    forall loc, In loc locations -> snapshotEntryFor c data loc.
Proof.
  intro Hr. exists (flat_map (newest c) locations). split.
  - unfold api_latest. now rewrite (latestLoop_reachable c locations [] Hr).
  - intros loc Hin. unfold snapshotEntryFor.
    rewrite (filter_snapshot c loc Hin). split.
    + intros (d & Hd & Hloc).
      destruct (newest_is_latest c loc d Hd Hloc) as (e & He & _).
      exists e. split; [ exact He | ].
      destruct (newest_stored c loc e) as [Hs Hl];
        [ rewrite He; now left | ].
      repeat split; try assumption.
      intros d' Hd' Hloc'.
      destruct (newest_is_latest c loc d' Hd' Hloc') as (e' & He' & Hle).
      rewrite He in He'. now injection He' as ->.
    + apply newest_none.
Qed.

Lemma latest_snapshot_witness :
  reachableFor canal locations /\
  exists data,
    api_latest "2025-12-01T12:00:00.000Z" canal
    = mkResponse 200 (LatestBody "2025-12-01T12:00:00.000Z" data) /\
    forall loc, In loc locations -> snapshotEntryFor canal data loc.
Proof.
  assert (Hr : reachableFor canal locations) by (intros loc _; reflexivity).
  split; [ exact Hr | ].
  exact (latest_snapshot_newest_per_location
           "2025-12-01T12:00:00.000Z" canal Hr).
Defined.



(** ** Chronological order of the history *)












(** ** The status handler *)

Lemma strictEqStr_true (v : jsval) (lit : string) :
  strictEqStr v lit = true -> v = JStr lit.
Proof.
  destruct v; cbn [strictEqStr]; try discriminate.
  intro H. apply String.eqb_eq in H. now subst.
Qed.

Lemma fetchAllSafetyStatus_reachable (c : Container) (loc : string) :
  outage c loc = None ->
  fetchAllSafetyStatus c (mkQuery (Finite 1) loc)
  = Ok (map safetyStatus (newest c loc)).
Proof.
  intro Hout. unfold fetchAllSafetyStatus.
  rewrite fetchAll_top1 by assumption. reflexivity.
Qed.

Lemma countOf_cons (p : string -> bool) (loc : string) (locs : list string) :
  countOf p (loc :: locs) = (if p loc then 1 else 0) + countOf p locs.
Proof.
  unfold countOf. cbn [filter]. destruct (p loc); cbn [List.length]; lia.
Qed.

Lemma countOf_nonneg (p : string -> bool) (locs : list string) :
  0 <= countOf p locs.
Proof. unfold countOf. lia. Qed.

Lemma countOf_pos_iff (p : string -> bool) (locs : list string) :
  0 < countOf p locs <-> exists loc, In loc locs /\ p loc = true.
Proof.
  induction locs as [ | x locs IH ].
  - split; [ cbn; lia | intros (l & [] & _) ].
  - rewrite countOf_cons. pose proof (countOf_nonneg p locs) as Hn.
    destruct (p x) eqn:E; split.
    + intros _. exists x. split; [ now left | exact E ].
    + lia.
    + intro H. destruct IH as [IH _]. destruct IH as (l & Hl & Hp); [ lia | ].
      exists l. split; [ now right | exact Hp ].
    + intros (l & [ <- | Hl ] & Hp); [ congruence | ].
      destruct IH as [_ IH]. specialize (IH (ex_intro _ l (conj Hl Hp))). lia.
Qed.

(** The counters after the loop, in terms of the latest statuses. *)
Lemma statusLoop_reachable (c : Container) (locs : list string) (n : Counts) :
  reachableFor c locs ->
  statusLoop c locs n
  = Ok (mkCounts
          (safeCount n + countOf (latestIs c "Safe") locs)
          (cautionCount n + countOf (latestIs c "Caution") locs)
          (unsafeCount n + countOf (latestNeitherSafeNorCaution c) locs)).
Proof.
  revert n. induction locs as [ | loc locs IH ]; intros n Hr.
  - cbn [statusLoop]. unfold countOf. cbn. rewrite !Z.add_0_r.
    now destruct n.
  - cbn [statusLoop].
    rewrite fetchAllSafetyStatus_reachable by (apply Hr; now left).
    cbn [bind]. rewrite IH by (intros l Hl; apply Hr; now right).
    rewrite !countOf_cons.
    unfold latestIs, latestNeitherSafeNorCaution, latestStatus.
    destruct (newest c loc) as [ | e r ]; cbn [map hd_error option_map].
    + f_equal; f_equal; lia.
    + unfold tally.
      destruct (strictEqStr (safetyStatus e) "Safe") eqn:Es.
      * apply strictEqStr_true in Es. rewrite Es.
        cbn [strictEqStr negb andb safeCount cautionCount unsafeCount].
        eval_eqb. f_equal; f_equal; lia.
      * destruct (strictEqStr (safetyStatus e) "Caution") eqn:Ec;
          cbn [negb andb safeCount cautionCount unsafeCount];
          f_equal; f_equal; lia.
Qed.

Lemma api_status_reachable (now : string) (c : Container) :
  reachableFor c locations ->
  api_status now c
  = mkResponse 200
      (StatusBody now
         (if countOf (latestNeitherSafeNorCaution c) locations >? 0
          then "Unsafe"
          else if countOf (latestIs c "Caution") locations >? 0
               then "Caution" else "Safe")
         (mkBreakdown
            (countOf (latestIs c "Safe") locations)
            (countOf (latestIs c "Caution") locations)
            (countOf (latestNeitherSafeNorCaution c) locations)
            3)).
Proof.
  intro Hr. unfold api_status.
  rewrite (statusLoop_reachable c locations _ Hr).
  cbn [bind tryCatch json safeCount cautionCount unsafeCount rollUp].
  cbn [Z.add]. reflexivity.
Qed.

Lemma countOf_existsb (p : string -> bool) (locs : list string) :
  (countOf p locs >? 0) = existsb p locs.
Proof.
  induction locs as [ | x locs IH ]; [ reflexivity | ].
  rewrite countOf_cons. cbn [existsb].
  pose proof (countOf_nonneg p locs) as Hn.
  destruct (p x); cbn [orb]; [ | exact IH ].
  apply Z.gtb_gt. lia.
Qed.

Lemma existsb_ext_in {A : Type} (p q : A -> bool) (l : list A) :
  (forall x, In x l -> p x = q x) -> existsb p l = existsb q l.
Proof.
  induction l as [ | x l IH ]; intro H; [ reflexivity | ].
  cbn [existsb]. rewrite (H x (or_introl eq_refl)). f_equal.
  apply IH. intros y Hy. apply H. now right.
Qed.

Lemma recognised_neither_is_unsafe (v : jsval) :
  recognised v ->
  negb (strictEqStr v "Safe") && negb (strictEqStr v "Caution")
  = strictEqStr v "Unsafe".
Proof. intros [ -> | [ -> | -> ] ]; reflexivity. Qed.

Lemma unrecognised_neither (v : jsval) :
  ~ recognised v ->
  strictEqStr v "Safe" = false /\ strictEqStr v "Caution" = false.
Proof.
  intro Hn. split.
  - destruct (strictEqStr v "Safe") eqn:E; [ | reflexivity ].
    exfalso. apply Hn. left. now apply strictEqStr_true.
  - destruct (strictEqStr v "Caution") eqn:E; [ | reflexivity ].
    exfalso. apply Hn. right. left. now apply strictEqStr_true.
Qed.

Lemma tallies_sum (c : Container) (locs : list string) :
  countOf (latestIs c "Safe") locs + countOf (latestIs c "Caution") locs
  + countOf (latestNeitherSafeNorCaution c) locs
  = countOf (hasData c) locs.
Proof.
  induction locs as [ | x locs IH ]; [ reflexivity | ].
  rewrite !countOf_cons, <- IH.
  generalize (countOf (latestIs c "Safe") locs)
             (countOf (latestIs c "Caution") locs)
             (countOf (latestNeitherSafeNorCaution c) locs).
  intros s k u.
  unfold latestIs, latestNeitherSafeNorCaution, hasData.
  destruct (latestStatus c x) as [v|]; [ | lia ].
  destruct (strictEqStr v "Safe") eqn:Es.
  - apply strictEqStr_true in Es. subst v.
    cbn [strictEqStr negb andb]. eval_eqb. lia.
  - destruct (strictEqStr v "Caution"); cbn [negb andb]; lia.
Qed.

(** C6: while the store answers and every latest status is one of the three
    known values, the overall status is [Unsafe] if the latest status of
    some known location is [Unsafe], otherwise [Caution] if some is
    [Caution], otherwise [Safe]; and one location whose latest status is
    [Unsafe] makes the overall status [Unsafe] whatever the others hold. *)
Theorem status_rollup_priority (now : string) (c : Container) :
  reachableFor c locations ->
  exists overall breakdown,
    api_status now c = mkResponse 200 (StatusBody now overall breakdown) /\
    ((exists loc, In loc locations /\
                  latestStatus c loc = Some (JStr "Unsafe")) ->
     overall = "Unsafe") /\
    (knownStatuses c ->
     overall = if existsb (latestIs c "Unsafe") locations then "Unsafe"
               else if existsb (latestIs c "Caution") locations
                    then "Caution" else "Safe").
Proof.
  intro Hr. eexists. eexists.
  split; [ exact (api_status_reachable now c Hr) | ].
  rewrite !countOf_existsb. split.
  - intros (loc & Hin & Hs).
    assert (E : existsb (latestNeitherSafeNorCaution c) locations = true).
    { apply existsb_exists. exists loc. split; [ exact Hin | ].
      unfold latestNeitherSafeNorCaution. now rewrite Hs. }
    now rewrite E.
  - intro Hk.
    rewrite (existsb_ext_in (latestNeitherSafeNorCaution c)
               (latestIs c "Unsafe") locations); [ reflexivity | ].
    intros loc Hin. unfold latestNeitherSafeNorCaution, latestIs.
    destruct (latestStatus c loc) as [v|] eqn:Hs; [ | reflexivity ].
    apply recognised_neither_is_unsafe. exact (Hk loc v Hin Hs).
Qed.

Lemma status_rollup_priority_witness :
  reachableFor canalMixed locations /\
  exists overall breakdown,
    api_status "2025-12-01T12:00:00.000Z" canalMixed
    = mkResponse 200
        (StatusBody "2025-12-01T12:00:00.000Z" overall breakdown) /\
    ((exists loc, In loc locations /\
                  latestStatus canalMixed loc = Some (JStr "Unsafe")) ->
     overall = "Unsafe") /\
    (knownStatuses canalMixed ->
     overall = if existsb (latestIs canalMixed "Unsafe") locations
               then "Unsafe"
               else if existsb (latestIs canalMixed "Caution") locations
                    then "Caution" else "Safe").
Proof.
  assert (Hr : reachableFor canalMixed locations)
    by (intros loc _; reflexivity).
  split; [ exact Hr | ].
  exact (status_rollup_priority "2025-12-01T12:00:00.000Z" canalMixed Hr).
Defined.

(** C7: while the store answers, a known location with no stored record
    adds to none of the [safe], [caution] and [unsafe] tallies, which
    together count the locations that have data, and [total] is the size of
    the fixed location set; when every location either has no data or is
    [Safe] the overall status is [Safe], and when one is [Caution] and
    every other has no data or is [Safe] or [Caution] it is [Caution]. *)
Theorem status_no_data_location (now : string) (c : Container) :
  reachableFor c locations ->
  exists overall b,
    api_status now c = mkResponse 200 (StatusBody now overall b) /\
    total b = Z.of_nat (List.length locations) /\
    total b = 3 /\
    safe b = countOf (latestIs c "Safe") locations /\
    caution b = countOf (latestIs c "Caution") locations /\
    safe b + caution b + unsafe b = countOf (hasData c) locations /\
    ((forall loc, In loc locations ->
                  latestStatus c loc = None \/
                  latestStatus c loc = Some (JStr "Safe")) ->
     overall = "Safe") /\
    ((exists loc, In loc locations /\
                  latestStatus c loc = Some (JStr "Caution")) ->
     (forall loc, In loc locations ->
                  latestStatus c loc = None \/
                  latestStatus c loc = Some (JStr "Safe") \/
                  latestStatus c loc = Some (JStr "Caution")) ->
     overall = "Caution").
Proof.
  intro Hr. eexists. eexists.
  split; [ exact (api_status_reachable now c Hr) | ].
  cbn [total safe caution unsafe].
  split; [ reflexivity | ]. split; [ reflexivity | ].
  split; [ reflexivity | ]. split; [ reflexivity | ].
  split; [ apply tallies_sum | ].
  rewrite !countOf_existsb. split.
  - intro Hall.
    rewrite (existsb_ext_in (latestNeitherSafeNorCaution c)
               (fun _ => false) locations).
    2:{ intros loc Hin. unfold latestNeitherSafeNorCaution.
        destruct (Hall loc Hin) as [ -> | -> ]; reflexivity. }
    rewrite (existsb_ext_in (latestIs c "Caution")
               (fun _ => false) locations).
    2:{ intros loc Hin. unfold latestIs.
        destruct (Hall loc Hin) as [ -> | -> ]; reflexivity. }
    reflexivity.
  - intros (loc & Hin & Hs) Hall.
    rewrite (existsb_ext_in (latestNeitherSafeNorCaution c)
               (fun _ => false) locations).
    2:{ intros l Hl. unfold latestNeitherSafeNorCaution.
        destruct (Hall l Hl) as [ -> | [ -> | -> ] ]; reflexivity. }
    assert (E : existsb (latestIs c "Caution") locations = true).
    { apply existsb_exists. exists loc. split; [ exact Hin | ].
      unfold latestIs. now rewrite Hs. }
    rewrite E. reflexivity.
Qed.

Lemma status_no_data_location_witness :
  api_status "2025-12-01T12:00:00.000Z" (onlyDowsLake "Safe")
  = mkResponse 200
      (StatusBody "2025-12-01T12:00:00.000Z" "Safe" (mkBreakdown 1 0 0 3)) /\
  api_status "2025-12-01T12:00:00.000Z" (onlyDowsLake "Caution")
  = mkResponse 200
      (StatusBody "2025-12-01T12:00:00.000Z" "Caution"
         (mkBreakdown 0 1 0 3)) /\
  reachableFor (onlyDowsLake "Caution") locations /\
  exists overall b,
    api_status "2025-12-01T12:00:00.000Z" (onlyDowsLake "Caution")
    = mkResponse 200 (StatusBody "2025-12-01T12:00:00.000Z" overall b) /\
    total b = Z.of_nat (List.length locations) /\
    total b = 3 /\
    safe b = countOf (latestIs (onlyDowsLake "Caution") "Safe") locations /\
    caution b
    = countOf (latestIs (onlyDowsLake "Caution") "Caution") locations /\
    safe b + caution b + unsafe b
    = countOf (hasData (onlyDowsLake "Caution")) locations /\
    ((forall loc, In loc locations ->
                  latestStatus (onlyDowsLake "Caution") loc = None \/
                  latestStatus (onlyDowsLake "Caution") loc
                  = Some (JStr "Safe")) ->
     overall = "Safe") /\
    ((exists loc, In loc locations /\
                  latestStatus (onlyDowsLake "Caution") loc
                  = Some (JStr "Caution")) ->
     (forall loc, In loc locations ->
                  latestStatus (onlyDowsLake "Caution") loc = None \/
                  latestStatus (onlyDowsLake "Caution") loc
                  = Some (JStr "Safe") \/
                  latestStatus (onlyDowsLake "Caution") loc
                  = Some (JStr "Caution")) ->
     overall = "Caution").
Proof.
  split; [ reflexivity | ]. split; [ reflexivity | ].
  assert (Hr : reachableFor (onlyDowsLake "Caution") locations)
    by (intros loc _; reflexivity).
  split; [ exact Hr | ].
  exact (status_no_data_location
           "2025-12-01T12:00:00.000Z" (onlyDowsLake "Caution") Hr).
Defined.

(** C8, as stated, fails: a stored record of unrecognised status that is
    not the newest of its location enters no tally; with a newer [Safe]
    record over it the breakdown is 1, 0, 0 and the overall status
    [Safe]. *)
Lemma status_older_unrecognised_not_tallied :
  In (window "Dow's Lake" T "Thin") (docs canalOldThin) /\
  ~ recognised (safetyStatus (window "Dow's Lake" T "Thin")) /\
  api_status "2025-12-01T12:00:00.000Z" canalOldThin
  = mkResponse 200
      (StatusBody "2025-12-01T12:00:00.000Z" "Safe" (mkBreakdown 1 0 0 3)).
Proof.
  split; [ now left | ]. split; [ | reflexivity ].
  intros [ H | [ H | H ] ]; discriminate H.
Qed.

(** C8, amended: the status operation reads the newest record of each
    known location only.  A status outside [Safe], [Caution], [Unsafe] is
    tallied as unsafe and as nothing else; so, while the store answers, a
    known location whose newest record holds such a status is counted in
    the [unsafe] tally, which is then at least 1, and in neither [safe]
    nor [caution], and the overall status is [Unsafe]. *)
Theorem status_unrecognised_is_unsafe (now : string) (c : Container) :
  reachableFor c locations ->
  (forall v n,
      ~ recognised v ->
      tally v n
      = mkCounts (safeCount n) (cautionCount n) (unsafeCount n + 1)) /\
  exists overall b,
    api_status now c = mkResponse 200 (StatusBody now overall b) /\
    safe b = countOf (latestIs c "Safe") locations /\
    caution b = countOf (latestIs c "Caution") locations /\
    unsafe b = countOf (latestNeitherSafeNorCaution c) locations /\
    forall loc v,
      In loc locations -> latestStatus c loc = Some v -> ~ recognised v ->
      latestNeitherSafeNorCaution c loc = true /\
      latestIs c "Safe" loc = false /\
      latestIs c "Caution" loc = false /\
      1 <= unsafe b /\
      overall = "Unsafe".
Proof.
  intro Hr. split.
  { intros v n Hv. destruct (unrecognised_neither v Hv) as [Hs Hc].
    unfold tally. now rewrite Hs, Hc. }
  eexists. eexists.
  split; [ exact (api_status_reachable now c Hr) | ].
  cbn [safe caution unsafe].
  split; [ reflexivity | ]. split; [ reflexivity | ].
  split; [ reflexivity | ].
  intros loc v Hin Hs Hv.
  destruct (unrecognised_neither v Hv) as [Es Ec].
  assert (Hu : latestNeitherSafeNorCaution c loc = true)
    by (unfold latestNeitherSafeNorCaution; now rewrite Hs, Es, Ec).
  assert (Hpos : 0 < countOf (latestNeitherSafeNorCaution c) locations)
    by (apply countOf_pos_iff; now exists loc).
  split; [ exact Hu | ].
  split; [ unfold latestIs; now rewrite Hs | ].
  split; [ unfold latestIs; now rewrite Hs | ].
  split; [ lia | ].
  assert (Hg : (countOf (latestNeitherSafeNorCaution c) locations >? 0) = true)
    by (apply Z.gtb_gt; lia).
  now rewrite Hg.
Qed.

Lemma status_unrecognised_witness :
  api_status "2025-12-01T12:00:00.000Z" canalOddStatus
  = mkResponse 200
      (StatusBody "2025-12-01T12:00:00.000Z" "Unsafe"
         (mkBreakdown 1 0 1 3)) /\
  reachableFor canalOddStatus locations /\
  exists overall b,
    api_status "2025-12-01T12:00:00.000Z" canalOddStatus
    = mkResponse 200 (StatusBody "2025-12-01T12:00:00.000Z" overall b) /\
    safe b = countOf (latestIs canalOddStatus "Safe") locations /\
    caution b = countOf (latestIs canalOddStatus "Caution") locations /\
    unsafe b
    = countOf (latestNeitherSafeNorCaution canalOddStatus) locations /\
    forall loc v,
      In loc locations -> latestStatus canalOddStatus loc = Some v ->
      ~ recognised v ->
      latestNeitherSafeNorCaution canalOddStatus loc = true /\
      latestIs canalOddStatus "Safe" loc = false /\
      latestIs canalOddStatus "Caution" loc = false /\
      1 <= unsafe b /\
      overall = "Unsafe".
Proof.
  split; [ reflexivity | ].
  assert (Hr : reachableFor canalOddStatus locations)
    by (intros loc _; reflexivity).
  split; [ exact Hr | ].
  exact (proj2 (status_unrecognised_is_unsafe
                  "2025-12-01T12:00:00.000Z" canalOddStatus Hr)).
Defined.

(** ** The client's history poller *)

Lemma nth_error_dropNth_before {A : Type} (l : list A) (i j : nat) :
  (i < j)%nat -> nth_error (dropNth j l) i = nth_error l i.
Proof.
  revert i j. induction l as [ | x l IH ]; intros i j Hij.
  - destruct j; reflexivity.
  - destruct j as [ | j ]; [ lia | ]. cbn [dropNth].
    destruct i as [ | i ]; [ reflexivity | ]. cbn [nth_error].
    apply IH. lia.
Qed.

Lemma step_arrive (network : string -> Outcome) (p : Page) (i : nat)
      (loc : string) :
  nth_error (inflight p) i = Some loc ->
  step network p (Arrive i)
  = resume (network loc)
      (mkPage (charts p) (selected p) (dropNth i (inflight p))).
Proof. intro H. cbn [step]. now rewrite H. Qed.

(** C9, as stated, fails: a fetch for Fifth Avenue is superseded by one for
    NAC, whose response arrives first and is drawn; the late response for
    Fifth Avenue then replaces it, while NAC stays selected. *)
Lemma stale_history_response_overwrites :
  charts (run (served canalMixed) (mkPage None "Dow's Lake" [])
            [ Change "Fifth Avenue"; Change "NAC"; Arrive 1 ])
  = Some [ window "NAC" T "Caution" ] /\
  run (served canalMixed) (mkPage None "Dow's Lake" [])
    [ Change "Fifth Avenue"; Change "NAC"; Arrive 1; Arrive 0 ]
  = mkPage (Some [ window "Fifth Avenue" T "Unsafe" ]) "NAC" [].
Proof. split; reflexivity. Qed.

(** C9, amended: responses are not correlated to requests; each successful
    history response is drawn when it arrives.  When a fetch for [X] was
    issued before a fetch for [Y] and the response for [Y] arrives first,
    the charts show [Y]'s data until the late response for [X] arrives and
    then show [X]'s data, the selected location being unchanged. *)
Theorem history_response_drawn_on_arrival
        (network : string -> Outcome) (p : Page) (i j : nat)
        (X Y : string) (dataX dataY : list Doc) :
  nth_error (inflight p) i = Some X ->
  nth_error (inflight p) j = Some Y ->
  (i < j)%nat ->
  network X = Resolved true dataX ->
  network Y = Resolved true dataY ->
  charts (run network p [ Arrive j ]) = Some dataY /\
  charts (run network p [ Arrive j; Arrive i ]) = Some dataX /\
  selected (run network p [ Arrive j; Arrive i ]) = selected p.
Proof.
  intros Hi Hj Hij HX HY. unfold run. cbn [fold_left].
  rewrite (step_arrive network p j Y Hj), HY. cbn [resume].
  split; [ reflexivity | ].
  rewrite (step_arrive network _ i X).
  - rewrite HX. split; reflexivity.
  - cbn [updateCharts inflight]. now rewrite nth_error_dropNth_before.
Qed.

Lemma history_response_drawn_witness :
  charts (run (served canalMixed)
            (mkPage None "NAC" [ "Fifth Avenue"; "NAC" ]) [ Arrive 1 ])
  = Some [ window "NAC" T "Caution" ] /\
  charts (run (served canalMixed)
            (mkPage None "NAC" [ "Fifth Avenue"; "NAC" ])
            [ Arrive 1; Arrive 0 ])
  = Some [ window "Fifth Avenue" T "Unsafe" ] /\
  selected (run (served canalMixed)
              (mkPage None "NAC" [ "Fifth Avenue"; "NAC" ])
              [ Arrive 1; Arrive 0 ])
  = "NAC".
Proof.
  apply (history_response_drawn_on_arrival (served canalMixed)
           (mkPage None "NAC" [ "Fifth Avenue"; "NAC" ]) 0 1
           "Fifth Avenue" "NAC");
    [ reflexivity | reflexivity | lia | reflexivity | reflexivity ].
Defined.

(** ** Both snapshot endpoints under an outage *)

Lemma firstOutage_none (c : Container) (locs : list string) :
  firstOutage c locs = None -> reachableFor c locs.
Proof.
  induction locs as [ | loc locs IH ]; cbn [firstOutage].
  - intros _ l [].
  - destruct (outage c loc) as [m|] eqn:Hout; [ discriminate | ].
    intros H l [ <- | Hl ]; [ exact Hout | now apply IH ].
Qed.

Lemma latestLoop_firstOutage (c : Container) (locs : list string)
      (acc : list Doc) (m : string) :
  firstOutage c locs = Some m -> latestLoop c locs acc = Throw m.
Proof.
  revert acc. induction locs as [ | loc locs IH ]; intro acc;
    cbn [firstOutage latestLoop]; [ discriminate | ].
  destruct (outage c loc) as [m'|] eqn:Hout.
  - intros [= ->]. now rewrite (fetchAll_outage c _ loc m Hout).
  - intro H. rewrite fetchAll_top1 by assumption.
    cbn [bind]. now apply IH.
Qed.

Lemma statusLoop_firstOutage (c : Container) (locs : list string)
      (n : Counts) (m : string) :
  firstOutage c locs = Some m -> statusLoop c locs n = Throw m.
Proof.
  revert n. induction locs as [ | loc locs IH ]; intro n;
    cbn [firstOutage statusLoop]; [ discriminate | ].
  destruct (outage c loc) as [m'|] eqn:Hout.
  - intros [= ->]. unfold fetchAllSafetyStatus.
    now rewrite (fetchAll_outage c _ loc m Hout).
  - intro H. rewrite fetchAllSafetyStatus_reachable by assumption.
    cbn [bind]. now apply IH.
Qed.

(** X1: [/api/latest] and [/api/status] succeed or fail together on a
    container: both answer 200 when no known location is out of reach, and
    otherwise both answer 500 with the error message of the first location,
    in declared order, whose lookup fails. *)
Theorem latest_and_status_fail_together (now now' : string) (c : Container) :
  match firstOutage c locations with
  | None =>
      statusCode (api_latest now c) = 200 /\
      success (body (api_latest now c)) = true /\
      statusCode (api_status now' c) = 200 /\
      success (body (api_status now' c)) = true
  | Some m =>
      api_latest now c
      = mkResponse 500 (ErrorBody "Failed to fetch latest data" m) /\
      api_status now' c
      = mkResponse 500 (ErrorBody "Failed to fetch system status" m)
  end.
Proof.
  destruct (firstOutage c locations) as [m|] eqn:Hf.
  - unfold api_latest, api_status.
    rewrite (latestLoop_firstOutage c locations [] m Hf).
    rewrite (statusLoop_firstOutage c locations _ m Hf).
    split; reflexivity.
  - pose proof (firstOutage_none c locations Hf) as Hr.
    rewrite (api_status_reachable now' c Hr).
    unfold api_latest. rewrite (latestLoop_reachable c locations [] Hr).
    repeat split.
Qed.

(** ** The status body *)

Lemma countOf_le_length (p : string -> bool) (locs : list string) :
  countOf p locs <= Z.of_nat (List.length locs).
Proof.
  induction locs as [ | x locs IH ]; [ cbn; lia | ].
  rewrite countOf_cons. cbn [List.length]. destruct (p x); lia.
Qed.

Lemma api_status_success_reachable (now : string) (c : Container)
      (ts overall : string) (b : Breakdown) :
  body (api_status now c) = StatusBody ts overall b ->
  reachableFor c locations.
Proof.
  intro H. destruct (firstOutage c locations) as [m|] eqn:Hf.
  - unfold api_status in H.
    rewrite (statusLoop_firstOutage c locations _ m Hf) in H.
    discriminate H.
  - now apply firstOutage_none.
Qed.

(** X2: in every successful status response the timestamp is the clock's,
    [total] is 3, the three tallies are non-negative and together at most
    [total], and [overallStatus] is read off the breakdown: [Unsafe]
    exactly when [unsafe] is positive, [Caution] exactly when [unsafe] is 0
    and [caution] positive, [Safe] exactly when both are 0. *)
Theorem status_breakdown_consistent (now : string) (c : Container)
        (ts overall : string) (b : Breakdown) :
  body (api_status now c) = StatusBody ts overall b ->
  ts = now /\ total b = 3 /\
  0 <= safe b /\ 0 <= caution b /\ 0 <= unsafe b /\
  safe b + caution b + unsafe b <= total b /\
  (overall = "Unsafe" <-> 0 < unsafe b) /\
  (overall = "Caution" <-> unsafe b = 0 /\ 0 < caution b) /\
  (overall = "Safe" <-> unsafe b = 0 /\ caution b = 0).
Proof.
  intro H. pose proof (api_status_success_reachable now c ts overall b H) as Hr.
  rewrite (api_status_reachable now c Hr) in H. cbn [body] in H.
  injection H as <- <- <-. cbn [total safe caution unsafe].
  pose proof (countOf_nonneg (latestIs c "Safe") locations) as Hs.
  pose proof (countOf_nonneg (latestIs c "Caution") locations) as Hc.
  pose proof (countOf_nonneg (latestNeitherSafeNorCaution c) locations) as Hu.
  pose proof (tallies_sum c locations) as Hsum.
  pose proof (countOf_le_length (hasData c) locations) as Hle.
  change (Z.of_nat (List.length locations)) with 3 in Hle.
  repeat (split; [ first [ reflexivity | lia ] | ]).
  destruct (countOf (latestNeitherSafeNorCaution c) locations >? 0) eqn:Eu;
    [ apply Z.gtb_gt in Eu | rewrite Z.gtb_ltb in Eu; apply Z.ltb_ge in Eu ].
  - repeat split; intros; try discriminate; try lia.
  - destruct (countOf (latestIs c "Caution") locations >? 0) eqn:Ec;
      [ apply Z.gtb_gt in Ec | rewrite Z.gtb_ltb in Ec; apply Z.ltb_ge in Ec ];
      repeat split; intros; try discriminate; try lia.
Qed.

Lemma status_breakdown_witness :
  body (api_status "2025-12-01T12:00:00.000Z" canalMixed)
  = StatusBody "2025-12-01T12:00:00.000Z" "Unsafe" (mkBreakdown 1 1 1 3) /\
  (1 + 1 + 1 <= 3 /\ ("Unsafe" = "Unsafe" <-> 0 < 1)).
Proof.
  split; [ reflexivity | ].
  destruct (status_breakdown_consistent "2025-12-01T12:00:00.000Z" canalMixed
              "2025-12-01T12:00:00.000Z" "Unsafe" (mkBreakdown 1 1 1 3)
              eq_refl)
    as (_ & _ & _ & _ & _ & Hsum & Hu & _).
  split; [ exact Hsum | exact Hu ].
Defined.

(** ** The snapshot's entries *)

Lemma newest_cases (c : Container) (loc : string) :
  newest c loc = [] \/ exists e, newest c loc = [e].
Proof.
  unfold newest.
  destruct (orderByWindowEndDesc (filter (atLocation loc) (docs c)))
    as [ | x r ]; [ now left | right; now exists x ].
Qed.

Lemma locations_of_newest (c : Container) (locs : list string) :
  map location (flat_map (newest c) locs) = filter (hasData c) locs.
Proof.
  induction locs as [ | loc locs IH ]; [ reflexivity | ].
  cbn [flat_map filter]. rewrite map_app, IH.
  unfold hasData, latestStatus.
  destruct (newest_cases c loc) as [ E | (e & E) ].
  - rewrite E. reflexivity.
  - destruct (newest_stored c loc e) as [_ Hl]; [ rewrite E; now left | ].
    rewrite E. cbn. now rewrite Hl.
Qed.

Lemma api_latest_success_inv (now : string) (c : Container)
      (ts : string) (data : list Doc) :
  body (api_latest now c) = LatestBody ts data ->
  reachableFor c locations /\ ts = now /\
  data = flat_map (newest c) locations.
Proof.
  intro H. destruct (firstOutage c locations) as [m|] eqn:Hf.
  - unfold api_latest in H.
    rewrite (latestLoop_firstOutage c locations [] m Hf) in H.
    discriminate H.
  - pose proof (firstOutage_none c locations Hf) as Hr.
    unfold api_latest in H.
    rewrite (latestLoop_reachable c locations [] Hr) in H.
    cbn [bind tryCatch json body app] in H. injection H as <- <-. auto.
Qed.

Lemma NoDup_locations : NoDup locations.
Proof.
  unfold locations.
  repeat constructor; cbn; intuition (try discriminate).
Qed.

Lemma filter_shorter {A : Type} (keep : A -> bool) (xs : list A) :
  (List.length (filter keep xs) <= List.length xs)%nat.
Proof.
  induction xs as [ | x xs IH ]; cbn [filter List.length]; [ lia | ].
  destruct (keep x); cbn [List.length]; lia.
Qed.

(** X3: in every successful latest-snapshot response the entries come in
    the declared order of the locations: their locations are exactly the
    known locations that have data, in that order, so no location occurs
    twice and there are at most three entries; the timestamp is the
    clock's. *)
Theorem latest_entries_in_declared_order (now : string) (c : Container)
        (ts : string) (data : list Doc) :
  body (api_latest now c) = LatestBody ts data ->
  map location data = filter (hasData c) locations /\
  NoDup (map location data) /\
  (List.length data <= 3)%nat /\
  ts = now.
Proof.
  intro H. apply api_latest_success_inv in H as (_ & -> & ->).
  pose proof (locations_of_newest c locations) as Hm.
  split; [ exact Hm | ]. split; [ | split; [ | reflexivity ] ].
  - rewrite Hm. apply NoDup_filter, NoDup_locations.
  - rewrite <- (length_map location), Hm.
    exact (filter_shorter (hasData c) locations).
Qed.

Lemma latest_entries_witness :
  body (api_latest "2025-12-01T12:00:00.000Z" canal)
  = LatestBody "2025-12-01T12:00:00.000Z"
      [ window "Dow's Lake" (T + 600) "Safe";
        window "Fifth Avenue" T "Caution" ] /\
  map location [ window "Dow's Lake" (T + 600) "Safe";
                 window "Fifth Avenue" T "Caution" ]
  = filter (hasData canal) locations.
Proof.
  split; [ reflexivity | ].
  exact (proj1 (latest_entries_in_declared_order
                  "2025-12-01T12:00:00.000Z" canal
                  "2025-12-01T12:00:00.000Z" _ eq_refl)).
Defined.

(** ** The status tallies against the snapshot *)

Lemma countOf_newest (c : Container) (p : string -> bool) (q : Doc -> bool)
      (locs : list string) :
  (forall loc, p loc = match newest c loc with
                       | e :: _ => q e
                       | [] => false
                       end) ->
  countOf p locs
  = Z.of_nat (List.length (filter q (flat_map (newest c) locs))).
Proof.
  intro Hp. induction locs as [ | loc locs IH ]; [ reflexivity | ].
  rewrite countOf_cons, IH. cbn [flat_map].
  rewrite filter_app, length_app, Hp.
  destruct (newest_cases c loc) as [ E | (e & E) ]; rewrite E.
  - cbn. lia.
  - cbn [filter]. destruct (q e); cbn [List.length]; lia.
Qed.

(** X4: the breakdown of [/api/status] is the tally of the entries of
    [/api/latest] on the same container: whenever the snapshot succeeds,
    the status succeeds too, [safe] and [caution] count the snapshot
    entries whose status is ['Safe'] and ['Caution'], [unsafe] counts all
    the other entries, and the three add up to the number of entries. *)
Theorem status_tallies_match_snapshot (now now' : string) (c : Container)
        (ts : string) (data : list Doc) :
  body (api_latest now c) = LatestBody ts data ->
  exists overall b,
    api_status now' c = mkResponse 200 (StatusBody now' overall b) /\
    safe b
    = Z.of_nat (List.length
                  (filter (fun d => strictEqStr (safetyStatus d) "Safe")
                     data)) /\
    caution b
    = Z.of_nat (List.length
                  (filter (fun d => strictEqStr (safetyStatus d) "Caution")
                     data)) /\
    unsafe b
    = Z.of_nat (List.length
                  (filter (fun d =>
                             negb (strictEqStr (safetyStatus d) "Safe") &&
                             negb (strictEqStr (safetyStatus d) "Caution"))
                     data)) /\
    safe b + caution b + unsafe b = Z.of_nat (List.length data).
Proof.
  intro H. apply api_latest_success_inv in H as (Hr & _ & ->).
  eexists. eexists.
  split; [ exact (api_status_reachable now' c Hr) | ].
  cbn [safe caution unsafe].
  assert (Hs : forall lit,
             countOf (latestIs c lit) locations
             = Z.of_nat (List.length
                           (filter (fun d => strictEqStr (safetyStatus d) lit)
                              (flat_map (newest c) locations)))).
  { intro lit. apply countOf_newest. intro loc.
    unfold latestIs, latestStatus.
    destruct (newest c loc); reflexivity. }
  assert (Hu : countOf (latestNeitherSafeNorCaution c) locations
               = Z.of_nat (List.length
                   (filter (fun d =>
                              negb (strictEqStr (safetyStatus d) "Safe") &&
                              negb (strictEqStr (safetyStatus d) "Caution"))
                      (flat_map (newest c) locations)))).
  { apply countOf_newest. intro loc.
    unfold latestNeitherSafeNorCaution, latestStatus.
    destruct (newest c loc); reflexivity. }
  split; [ apply Hs | ]. split; [ apply Hs | ]. split; [ exact Hu | ].
  rewrite tallies_sum.
  rewrite <- (length_map location (flat_map (newest c) locations)).
  rewrite locations_of_newest. reflexivity.
Qed.

Lemma status_tallies_witness :
  body (api_latest "2025-12-01T12:00:00.000Z" canalOddStatus)
  = LatestBody "2025-12-01T12:00:00.000Z"
      [ window "Dow's Lake" T "Safe"; window "NAC" T "Thin" ] /\
  exists overall b,
    api_status "2025-12-01T12:05:00.000Z" canalOddStatus
    = mkResponse 200 (StatusBody "2025-12-01T12:05:00.000Z" overall b) /\
    safe b + caution b + unsafe b = 2.
Proof.
  split; [ reflexivity | ].
  destruct (status_tallies_match_snapshot
              "2025-12-01T12:00:00.000Z" "2025-12-01T12:05:00.000Z"
              canalOddStatus "2025-12-01T12:00:00.000Z" _ eq_refl)
    as (overall & b & Hb & _ & _ & _ & Hsum).
  exists overall, b. split; [ exact Hb | exact Hsum ].
Defined.

(** ** Which windows the history holds *)

Lemma StronglySorted_app_inv {A : Type} (R : A -> A -> Prop)
      (front back : list A) :
  StronglySorted R (front ++ back) ->
  forall x y, In x front -> In y back -> R x y.
Proof.
  induction front as [ | a front IH ]; intros Hs x y Hx Hy; [ destruct Hx | ].
  cbn [app] in Hs. inversion Hs as [ | ? ? Hrest Ha ]; subst.
  destruct Hx as [ <- | Hx ].
  - rewrite Forall_forall in Ha. apply Ha, in_or_app. now right.
  - now apply IH.
Qed.

Lemma ordered_stored (c : Container) (loc : string) (d : Doc) :
  In d (orderByWindowEndDesc (filter (atLocation loc) (docs c)))
  <-> In d (docs c) /\ location d = loc.
Proof.
  split.
  - intro H. apply (Permutation_in _ (orderByWindowEndDesc_perm _)) in H.
    apply filter_In in H as [Hin Hl]. split; [ exact Hin | ].
    now apply String.eqb_eq.
  - intros [Hin Hl].
    apply (Permutation_in _ (Permutation_sym (orderByWindowEndDesc_perm _))).
    apply filter_In. split; [ exact Hin | ].
    unfold atLocation. now apply String.eqb_eq.
Qed.

(** X5: a successful history response holds stored records of the decoded
    location only, and the newest ones: a stored record of the location
    that is left out is no newer than any record returned; when the
    location has no more records than the resolved limit (the count the
    query carries after [TOP], which is the resolved limit itself below
    2^53), all of them are returned. *)
Theorem history_holds_newest_windows
        (c : Container) (req : HistoryRequest)
        (loc : string) (n : nat) (data : list Doc) :
  body (api_history c req) = HistoryBody loc n data ->
  (forall e, In e data -> In e (docs c) /\ location e = loc) /\
  (forall d e,
      In d (docs c) -> location d = loc -> ~ In d data -> In e data ->
      windowEnd d <= windowEnd e) /\
  (forall limit,
      templateInteger (resolveLimit (queryLimit req)) = Some limit ->
      Z.of_nat (List.length (filter (atLocation loc) (docs c))) <= limit ->
      forall d, In d (docs c) -> location d = loc -> In d data) /\
  (forall limit,
      resolveLimit (queryLimit req) = Finite limit -> limit < twoTo53 ->
      Z.of_nat (List.length (filter (atLocation loc) (docs c))) <= limit ->
      forall d, In d (docs c) -> location d = loc -> In d data).
Proof.
  intro H. apply api_history_inv in H as (rs & _ & Hq & -> & _).
  apply fetchAll_ok_inv in Hq as (_ & k0 & Hk & ->).
  cbn [top locationParam] in *.
  set (k := Z.to_nat k0).
  set (S := orderByWindowEndDesc (filter (atLocation loc) (docs c))).
  assert (Hsplit : S = firstn k S ++ skipn k S)
    by (symmetry; apply firstn_skipn).
  assert (Hall : forall limit,
             templateInteger (resolveLimit (queryLimit req)) = Some limit ->
             Z.of_nat (List.length (filter (atLocation loc) (docs c)))
             <= limit ->
             forall d, In d (docs c) -> location d = loc ->
                       In d (List.rev (firstn k S))).
  { intros limit Hlimit Hcount d Hd Hl. rewrite <- in_rev.
    rewrite Hk in Hlimit. injection Hlimit as <-.
    rewrite firstn_all2.
    + apply ordered_stored; auto.
    + unfold S.
      rewrite (Permutation_length (orderByWindowEndDesc_perm _)).
      unfold k. lia. }
  split; [ | split; [ | split; [ exact Hall | ] ] ].
  - intros e He. apply in_rev in He. apply (ordered_stored c loc e).
    fold S. rewrite Hsplit. apply in_or_app. now left.
  - intros d e Hd Hl Hout He. apply in_rev in He.
    assert (HdS : In d S) by (apply ordered_stored; auto).
    rewrite Hsplit in HdS. apply in_app_or in HdS as [ Hf | Hb ].
    + exfalso. apply Hout. now apply in_rev in Hf.
    + pose proof (orderByWindowEndDesc_descending
                    (filter (atLocation loc) (docs c))) as Hs.
      unfold descending in Hs. fold S in Hs. rewrite Hsplit in Hs.
      exact (StronglySorted_app_inv _ _ _ Hs e d He Hb).
  - intros limit Hlimit Hlt Hcount. apply (Hall limit); [ | exact Hcount ].
    rewrite Hlimit in Hk |- *.
    assert (Hz : 0 <= limit).
    { unfold templateInteger in Hk.
      destruct (limit <? 0) eqn:E; [ discriminate | now apply Z.ltb_ge in E ]. }
    apply templateInteger_exact. lia.
Qed.

Lemma history_newest_witness :
  body (api_history canal (mkHistoryRequest "Dow's Lake" (QStr "2")))
  = HistoryBody "Dow's Lake" 2
      [ window "Dow's Lake" (T + 300) "Safe";
        window "Dow's Lake" (T + 600) "Safe" ] /\
  forall d e,
    In d (docs canal) -> location d = "Dow's Lake" ->
    ~ In d [ window "Dow's Lake" (T + 300) "Safe";
             window "Dow's Lake" (T + 600) "Safe" ] ->
    In e [ window "Dow's Lake" (T + 300) "Safe";
           window "Dow's Lake" (T + 600) "Safe" ] ->
    windowEnd d <= windowEnd e.
Proof.
  split; [ reflexivity | ].
  exact (proj1 (proj2 (history_holds_newest_windows canal
                         (mkHistoryRequest "Dow's Lake" (QStr "2"))
                         "Dow's Lake" 2 _ eq_refl))).
Defined.

(** ** Decoding the location identifier *)

Lemma decodeFrom_percentFree (s : string) :
  percentFree s = true -> decodeFrom 0 128 191 s = Ok s.
Proof.
  induction s as [ | c r IH ]; intro H; [ reflexivity | ].
  cbn [percentFree] in H. apply andb_prop in H as [Hc Hr].
  apply negb_true_iff in Hc.
  cbn [decodeFrom]. rewrite Hc, (IH Hr). reflexivity.
Qed.

(** X6: a location identifier with no percent sign in it is decoded to
    itself, so that decoding once more the segment Express has already
    decoded changes nothing: the response, when a success, names that very
    identifier. *)
Theorem history_percent_free_location (s : string) :
  percentFree s = true ->
  decodeURIComponent s = Ok s /\
  forall c q loc n data,
    body (api_history c (mkHistoryRequest s q)) = HistoryBody loc n data ->
    loc = s.
Proof.
  intro H. pose proof (decodeFrom_percentFree s H) as Hd.
  split; [ exact Hd | ].
  intros c q loc n data Hb.
  apply api_history_inv in Hb as (rs & Hloc & _).
  cbn [paramLocation] in Hloc. unfold decodeURIComponent in Hloc.
  rewrite Hd in Hloc. now injection Hloc.
Qed.

Lemma history_percent_free_witness :
  percentFree "Fifth Avenue" = true /\
  decodeURIComponent "Fifth Avenue" = Ok "Fifth Avenue".
Proof.
  split; [ reflexivity | ].
  exact (proj1 (history_percent_free_location "Fifth Avenue" eq_refl)).
Defined.

Lemma decodeFrom_trailing_percent (n : nat) :
  forall s, (String.length s <= n)%nat ->
  forall need lo hi,
    decodeFrom need lo hi (s ++ "%")%string = Throw "URI malformed".
Proof.
  induction n as [ | n IH ]; intros s Hlen need lo hi.
  - destruct s; [ reflexivity | cbn in Hlen; lia ].
  - destruct s as [ | c r ]; [ reflexivity | ].
    cbn [String.length] in Hlen.
    cbn [append decodeFrom].
    destruct (Ascii.eqb c "%").
    + destruct r as [ | h1 [ | h2 r' ] ]; cbn [append].
      * reflexivity.
      * destruct (hexVal h1); reflexivity.
      * cbn [String.length] in Hlen.
        destruct (hexVal h1); [ | reflexivity ].
        destruct (hexVal h2); [ | reflexivity ].
        cbv zeta.
        destruct need;
          repeat match goal with
                 | |- context [if ?b then _ else _] => destruct b
                 end;
          try reflexivity;
          rewrite IH by lia; reflexivity.
    + destruct need; [ | reflexivity ].
      rewrite IH by lia. reflexivity.
Qed.

(** X7: a location identifier that ends with a percent sign can never be
    queried: whatever the store holds and whatever the limit, the history
    operation answers the 500 failure with the [URIError]'s message. *)
Theorem history_trailing_percent_fails
        (c : Container) (s : string) (q : qval) :
  api_history c (mkHistoryRequest (s ++ "%")%string q)
  = mkResponse 500
      (ErrorBody "Failed to fetch historical data" "URI malformed").
Proof.
  unfold api_history, decodeURIComponent. cbn [paramLocation].
  rewrite (decodeFrom_trailing_percent (String.length s) s (le_n _)).
  reflexivity.
Qed.

(** ** Identifiers with a percent sign *)

Lemma decodeFrom_shorter (n : nat) :
  forall s, (String.length s <= n)%nat ->
  forall need lo hi t,
    decodeFrom need lo hi s = Ok t ->
    (String.length t <= String.length s)%nat /\
    (percentFree s = false -> (String.length t < String.length s)%nat).
Proof.
  induction n as [ | n IH ]; intros s Hlen need lo hi t.
  - destruct s; [ | cbn in Hlen; lia ].
    destruct need; cbn [decodeFrom]; [ | discriminate ].
    intros [= <-]. split; [ lia | discriminate ].
  - destruct s as [ | c r ].
    + destruct need; cbn [decodeFrom]; [ | discriminate ].
      intros [= <-]. split; [ lia | discriminate ].
    + cbn [String.length] in Hlen. cbn [decodeFrom].
      destruct (Ascii.eqb c "%") eqn:Ec.
      * destruct r as [ | h1 [ | h2 r' ] ]; try discriminate.
        cbn [String.length] in Hlen.
        destruct (hexVal h1); [ | discriminate ].
        destruct (hexVal h2); [ | discriminate ].
        cbv zeta.
        destruct need; decode_cases IH; split; intros; lia.
      * destruct need; [ | discriminate ].
        decode_cases IH. rewrite Ec. cbn [negb andb].
        split; [ lia | ].
        intro Hp. match goal with H : _ -> (_ < _)%nat |- _ =>
                    specialize (H Hp) end. lia.
Qed.

(** X8: an identifier with a percent sign in it is never queried as it was
    received: the handler's [decodeURIComponent] either throws, or yields
    a shorter identifier, so a successful history response names a
    location other than the one in the request. *)
Theorem history_percent_location_changed (s : string) :
  percentFree s = false ->
  forall c q loc n data,
    body (api_history c (mkHistoryRequest s q)) = HistoryBody loc n data ->
    (String.length loc < String.length s)%nat /\ loc <> s.
Proof.
  intros Hp c q loc n data Hb.
  apply api_history_inv in Hb as (rs & Hd & _). cbn [paramLocation] in Hd.
  destruct (decodeFrom_shorter (String.length s) s (le_n _) _ _ _ _ Hd)
    as [ _ Hlt ].
  specialize (Hlt Hp). split; [ exact Hlt | ].
  intros ->. lia.
Qed.

Lemma history_percent_location_witness :
  body (api_history canal (mkHistoryRequest "Dow's%20Lake" (QStr "1")))
  = HistoryBody "Dow's Lake" 1 [ window "Dow's Lake" (T + 600) "Safe" ] /\
  (String.length "Dow's Lake" < String.length "Dow's%20Lake")%nat /\
  "Dow's Lake" <> "Dow's%20Lake".
Proof.
  split; [ reflexivity | ].
  apply (history_percent_location_changed "Dow's%20Lake" eq_refl
           canal (QStr "1") "Dow's Lake" 1
           [ window "Dow's Lake" (T + 600) "Safe" ]).
  reflexivity.
Defined.

(** ** Text after the limit's numeral *)

Lemma digitsPrefix_end (acc : option Z) (r : string) :
  endsNumeral r = true -> digitsPrefix 10 acc r = acc.
Proof.
  destruct r as [ | c r ]; [ reflexivity | ].
  cbn [endsNumeral digitsPrefix].
  destruct (digitVal 10 c); [ discriminate | reflexivity ].
Qed.

Lemma digitsPrefix_acc_then (d : Decimal.uint) (a : positive) (r : string) :
  endsNumeral r = true ->
  digitsPrefix 10 (Some (Z.pos a)) (NilEmpty.string_of_uint d ++ r)%string
  = Some (Z.pos (Pos.of_uint_acc d a)).
Proof.
  intro Hr. revert a.
  induction d; intro a;
    cbn [NilEmpty.string_of_uint append digitsPrefix Pos.of_uint_acc];
    [ now apply digitsPrefix_end | .. ];
    eval_digit; rewrite <- IHd; do 2 f_equal; lia.
Qed.

Lemma digitsPrefix_zero_then (d : Decimal.uint) (r : string) :
  endsNumeral r = true ->
  digitsPrefix 10 (Some 0) (NilEmpty.string_of_uint d ++ r)%string
  = Some (Z.of_N (Pos.of_uint d)).
Proof.
  intro Hr.
  induction d;
    cbn [NilEmpty.string_of_uint append digitsPrefix Pos.of_uint];
    [ now apply digitsPrefix_end | .. ];
    eval_digit; [ exact IHd | .. ];
    cbn [Z.mul Z.add Z.of_N]; now apply digitsPrefix_acc_then.
Qed.

Lemma digitsPrefix_uint_then (d : Decimal.uint) (r : string) :
  d <> Decimal.Nil -> endsNumeral r = true ->
  digitsPrefix 10 None (NilEmpty.string_of_uint d ++ r)%string
  = Some (Z.of_N (Pos.of_uint d)).
Proof.
  intros Hd Hr. destruct d; [ congruence | .. ];
    cbn [NilEmpty.string_of_uint append digitsPrefix Pos.of_uint];
    eval_digit; [ now apply digitsPrefix_zero_then | .. ];
    cbn [Z.of_N]; now apply digitsPrefix_acc_then.
Qed.

Lemma trimStart_digits_then (d : Decimal.uint) (r : string) :
  d <> Decimal.Nil ->
  trimStart (NilEmpty.string_of_uint d ++ r)%string
  = (NilEmpty.string_of_uint d ++ r)%string.
Proof. destruct d; [ congruence | .. ]; reflexivity. Qed.

Lemma stripSign_digits_then (d : Decimal.uint) (r : string) :
  d <> Decimal.Nil ->
  stripSign (NilEmpty.string_of_uint d ++ r)%string
  = (1, (NilEmpty.string_of_uint d ++ r)%string).
Proof. destruct d; [ congruence | .. ]; reflexivity. Qed.

Lemma stripPrefix_zero_then (r : string) :
  endsNumeral r = true -> stripPrefix (String "0" r) = (10, String "0" r).
Proof.
  destruct r as [ | c r ]; [ reflexivity | ].
  destruct c as [b0 b1 b2 b3 b4 b5 b6 b7].
  destruct b0, b1, b2, b3, b4, b5, b6, b7;
    intro H; first [ reflexivity | discriminate H ].
Qed.

Lemma stripPrefix_digits_then (d : Decimal.uint) (r : string) :
  d <> Decimal.Nil -> endsNumeral r = true ->
  stripPrefix (NilEmpty.string_of_uint d ++ r)%string
  = (10, (NilEmpty.string_of_uint d ++ r)%string).
Proof.
  intros Hd Hr.
  destruct d as [ | d | d | d | d | d | d | d | d | d | d ];
    [ congruence | .. ]; try reflexivity.
  destruct d; try reflexivity.
  cbn [NilEmpty.string_of_uint append]. now apply stripPrefix_zero_then.
Qed.

Lemma parseIntMath_digits_then (d : Decimal.uint) (r : string) :
  d <> Decimal.Nil -> endsNumeral r = true ->
  parseIntMath (NilEmpty.string_of_uint d ++ r)%string
  = Some (Z.of_N (Pos.of_uint d)).
Proof.
  intros Hd Hr. unfold parseIntMath.
  rewrite trimStart_digits_then, stripSign_digits_then by assumption.
  cbv beta iota.
  rewrite stripPrefix_digits_then by assumption. cbv beta iota.
  rewrite digitsPrefix_uint_then by assumption.
  cbn [option_map]. f_equal; lia.
Qed.

Lemma parseIntMath_minus_digits_then (d : Decimal.uint) (r : string) :
  d <> Decimal.Nil -> endsNumeral r = true ->
  parseIntMath (String "-" (NilEmpty.string_of_uint d ++ r))%string
  = Some (- Z.of_N (Pos.of_uint d)).
Proof.
  intros Hd Hr. unfold parseIntMath.
  change (trimStart (String "-" (NilEmpty.string_of_uint d ++ r)))
    with (String "-" (NilEmpty.string_of_uint d ++ r))%string.
  change (stripSign (String "-" (NilEmpty.string_of_uint d ++ r)))
    with (-1, (NilEmpty.string_of_uint d ++ r)%string).
  cbv beta iota.
  rewrite stripPrefix_digits_then by assumption. cbv beta iota.
  rewrite digitsPrefix_uint_then by assumption.
  cbn [option_map]. f_equal; lia.
Qed.

Lemma parseIntMath_numeral_then (n : Z) (r : string) :
  endsNumeral r = true -> parseIntMath (numeral n ++ r)%string = Some n.
Proof.
  intro Hr.
  destruct n as [ | p | p ].
  - change (numeral 0) with (NilEmpty.string_of_uint (Decimal.D0 Decimal.Nil)).
    rewrite parseIntMath_digits_then by (assumption || discriminate).
    reflexivity.
  - unfold numeral. cbn [Z.to_int NilZero.string_of_int].
    pose proof (Unsigned.to_uint_nonnil p) as Hd.
    pose proof (Unsigned.of_to p) as Hv.
    unfold NilZero.string_of_uint.
    destruct (Pos.to_uint p) eqn:E; try congruence; rewrite <- E in *;
      rewrite parseIntMath_digits_then by assumption; rewrite Hv; reflexivity.
  - unfold numeral. cbn [Z.to_int NilZero.string_of_int].
    pose proof (Unsigned.to_uint_nonnil p) as Hd.
    pose proof (Unsigned.of_to p) as Hv.
    unfold NilZero.string_of_uint.
    destruct (Pos.to_uint p) eqn:E; try congruence; rewrite <- E in *;
      cbn [append];
      rewrite parseIntMath_minus_digits_then by assumption; rewrite Hv;
      reflexivity.
Qed.

(** X9: [parseInt] stops at the first character that cannot continue the
    numeral, so text after an integer limit is ignored: the limit written
    as the numeral of an integer [n] of magnitude below 2^53, followed by
    nothing or by text starting with a character that is neither a digit
    nor [x] or [X], resolves as [n] alone does, to [n] when it is not zero
    and to 12 when it is. *)
Theorem resolveLimit_ignores_trailing_text (n : Z) (r : string) :
  - twoTo53 < n < twoTo53 ->
  endsNumeral r = true ->
  resolveLimit (QStr (numeral n ++ r)%string)
  = Finite (if n =? 0 then 12 else n).
Proof.
  intros Hn Hr. unfold resolveLimit, parseInt. cbn [toString].
  rewrite (parseIntMath_numeral_then n r Hr), (toNumber_exact n Hn).
  cbn [orDefault]. now destruct (n =? 0).
Qed.

Lemma resolveLimit_trailing_text_witness :
  endsNumeral "; DROP" = true /\
  (numeral 25 ++ "; DROP")%string = "25; DROP" /\
  resolveLimit (QStr (numeral 25 ++ "; DROP")%string) = Finite 25.
Proof.
  split; [ reflexivity | ]. split; [ reflexivity | ].
  apply (resolveLimit_ignores_trailing_text 25 "; DROP");
    [ unfold twoTo53; lia | reflexivity ].
Defined.



(** ** The charts in front of the server *)

Lemma served_resolves (c : Container) (loc : string) :
  exists ok data,
    served c loc = Resolved ok data /\ (List.length data <= 12)%nat.
Proof.
  unfold served.
  destruct (body (api_history c (mkHistoryRequest loc QUndefined)))
    as [ ts d | l n data | ts o b | e m ] eqn:Hb.
  2:{ exists true, data. split; [ reflexivity | ].
      destruct (history_length_le_limit c _ l n data Hb) as (k & Hk & Hle).
      cbn [queryLimit] in Hk.
      change (templateInteger (resolveLimit QUndefined)) with (Some 12) in Hk.
      injection Hk as <-. lia. }
  all: exists false, []; split; [ reflexivity | cbn; lia ].
Qed.

Lemma step_served_within (c : Container) (p : Page) (e : Event) :
  chartsWithin 12 p -> chartsWithin 12 (step (served c) p e).
Proof.
  intro H. destruct e as [ loc | | i ]; cbn [step]; try exact H.
  destruct (nth_error (inflight p) i) as [ loc | ]; [ | exact H ].
  destruct (served_resolves c loc) as (ok & data & Hs & Hle).
  rewrite Hs. cbn [resume]. destruct ok; [ exact Hle | exact H ].
Qed.

(** X11: the page never sends a [limit], so in front of the server the
    charts never hold more than twelve points: whatever locations are
    selected, whenever the timer fires and in whatever order the responses
    arrive, charts within twelve points stay within twelve points. *)
Theorem live_charts_within_twelve
        (c : Container) (p : Page) (es : list Event) :
  chartsWithin 12 p -> chartsWithin 12 (run (served c) p es).
Proof.
  revert p. unfold run.
  induction es as [ | e es IH ]; intros p H; cbn [fold_left]; [ exact H | ].
  apply IH. now apply step_served_within.
Qed.

Lemma live_charts_witness :
  chartsWithin 12
    (run (served canal) (mkPage None "Dow's Lake" [])
       [ Tick; Change "Fifth Avenue"; Arrive 1; Tick; Arrive 0 ]).
Proof.
  apply (live_charts_within_twelve canal (mkPage None "Dow's Lake" [])).
  exact I.
Defined.

(** ** The status badge *)

(** X12: the badge follows the server.  When no known location is out of
    reach, the badge shows the overall status the server computed, with the
    class of the same name in lower case; when the server answers its 500
    failure the badge is left as it was; and when the fetch is rejected it
    shows [OPERATIONAL] with the class [caution]. *)
Theorem status_badge_follows_server
        (now : string) (c : Container) (el : Badge) :
  match firstOutage c locations with
  | None =>
      exists overall b,
        api_status now c = mkResponse 200 (StatusBody now overall b) /\
        loadLatestData_status (servedStatus now c) el
        = mkBadge overall ("status-value " ++ toLowerCase overall)%string
  | Some _ => loadLatestData_status (servedStatus now c) el = el
  end /\
  loadLatestData_status StatusRejected el
  = mkBadge "OPERATIONAL" "status-value caution".
Proof.
  split; [ | reflexivity ].
  destruct (firstOutage c locations) as [m|] eqn:Hf.
  - unfold servedStatus, api_status.
    rewrite (statusLoop_firstOutage c locations _ m Hf). reflexivity.
  - pose proof (firstOutage_none c locations Hf) as Hr.
    unfold servedStatus. rewrite (api_status_reachable now c Hr).
    eexists. eexists. split; [ reflexivity | ].
    cbn [body loadLatestData_status].
    destruct (countOf (latestNeitherSafeNorCaution c) locations >? 0);
      [ reflexivity | ].
    destruct (countOf (latestIs c "Caution") locations >? 0); reflexivity.
Qed.

(** ** The refresh timer *)

Lemma startAutoRefresh_step (r : Refresher) :
  0 < nextHandle (timers r) ->
  match refreshTimer r with
  | Some id => 0 < id /\ live (timers r) = [id]
  | None => live (timers r) = []
  end ->
  refreshTimer (startAutoRefresh r) = Some (nextHandle (timers r)) /\
  live (timers (startAutoRefresh r)) = [nextHandle (timers r)] /\
  nextHandle (timers (startAutoRefresh r)) = nextHandle (timers r) + 1.
Proof.
  intros Hn Hinv. unfold startAutoRefresh.
  destruct (refreshTimer r) as [id|].
  - destruct Hinv as [Hid Hl].
    destruct (id =? 0) eqn:E; [ apply Z.eqb_eq in E; lia | ].
    cbn [setInterval clearInterval nextHandle live refreshTimer timers].
    rewrite Hl. cbn [filter]. rewrite Z.eqb_refl. cbn [negb].
    repeat split.
  - cbn [setInterval nextHandle live refreshTimer timers].
    rewrite Hinv. repeat split.
Qed.

(** X13: [startAutoRefresh] never leaves two refresh timers running.  From
    a page on which the only scheduled timer, if any, is the one
    [refreshTimer] holds, after any number of calls, one at least, exactly
    one timer is scheduled and [refreshTimer] holds its handle. *)
Theorem startAutoRefresh_keeps_one_timer (n : nat) (r : Refresher) :
  0 < nextHandle (timers r) ->
  match refreshTimer r with
  | Some id => 0 < id /\ live (timers r) = [id]
  | None => live (timers r) = []
  end ->
  exists id,
    0 < id /\
    refreshTimer (Nat.iter (S n) startAutoRefresh r) = Some id /\
    live (timers (Nat.iter (S n) startAutoRefresh r)) = [id].
Proof.
  intros Hn Hinv.
  assert (H : forall k,
             let r' := Nat.iter (S k) startAutoRefresh r in
             exists id, 0 < id /\ id < nextHandle (timers r') /\
                        refreshTimer r' = Some id /\
                        live (timers r') = [id]).
  { induction k as [ | k IH ]; cbv zeta.
    - change (Nat.iter 1 startAutoRefresh r) with (startAutoRefresh r).
      destruct (startAutoRefresh_step r Hn Hinv) as (Ht & Hl & Hx).
      exists (nextHandle (timers r)). rewrite Hx. repeat split; auto; lia.
    - cbv zeta in IH. destruct IH as (id & Hid & Hlt & Ht & Hl).
      change (Nat.iter (S (S k)) startAutoRefresh r)
        with (startAutoRefresh (Nat.iter (S k) startAutoRefresh r)).
      set (r' := Nat.iter (S k) startAutoRefresh r) in *.
      destruct (startAutoRefresh_step r') as (Ht' & Hl' & Hx');
        [ lia | rewrite Ht; auto | ].
      exists (nextHandle (timers r')). rewrite Hx'.
      repeat split; auto; lia. }
  destruct (H n) as (id & Hid & _ & Ht & Hl).
  exists id. auto.
Qed.

Lemma startAutoRefresh_witness :
  exists id,
    0 < id /\
    refreshTimer
      (Nat.iter 3 startAutoRefresh (mkRefresher None (mkTimers [] 1)))
    = Some id /\
    live (timers
            (Nat.iter 3 startAutoRefresh (mkRefresher None (mkTimers [] 1))))
    = [id].
Proof.
  apply (startAutoRefresh_keeps_one_timer 2
           (mkRefresher None (mkTimers [] 1)));
    [ reflexivity | reflexivity ].
Defined.

(** ** The history against the snapshot *)

Lemma firstn_one_of_firstn {A : Type} (k : nat) (xs : list A) :
  (0 < k)%nat -> firstn 1 (firstn k xs) = firstn 1 xs.
Proof.
  intro Hk. destruct k as [ | k ]; [ lia | ].
  destruct xs as [ | x xs ]; reflexivity.
Qed.

(** X14: the two read endpoints agree on the newest window: when both
    succeed on a container, the snapshot's entries for a known location
    are the last record of that location's history, and there is none
    exactly when the history is empty. *)
Theorem history_ends_with_snapshot_entry
        (now : string) (c : Container) (req : HistoryRequest)
        (loc : string) (n : nat) (data : list Doc)
        (ts : string) (snapshot : list Doc) :
  body (api_history c req) = HistoryBody loc n data ->
  body (api_latest now c) = LatestBody ts snapshot ->
  In loc locations ->
  filter (atLocation loc) snapshot = firstn 1 (List.rev data).
Proof.
  intros Hh Hl Hin.
  apply api_latest_success_inv in Hl as (_ & _ & ->).
  rewrite (filter_snapshot c loc Hin).
  apply api_history_inv in Hh as (rs & _ & Hq & -> & _).
  apply fetchAll_ok_inv in Hq as (_ & k & Hk & ->).
  cbn [top locationParam] in *.
  rewrite rev_involutive, firstn_one_of_firstn; [ reflexivity | ].
  pose proof (templateInteger_pos _ k Hk
                (resolveLimit_nonzero (queryLimit req))). lia.
Qed.

Lemma history_ends_with_snapshot_witness :
  filter (atLocation "Dow's Lake")
    [ window "Dow's Lake" (T + 600) "Safe"; window "Fifth Avenue" T "Caution" ]
  = firstn 1
      (List.rev [ window "Dow's Lake" (T + 300) "Safe";
                  window "Dow's Lake" (T + 600) "Safe" ]).
Proof.
  apply (history_ends_with_snapshot_entry "2025-12-01T12:00:00.000Z" canal
           (mkHistoryRequest "Dow's Lake" (QStr "2")) "Dow's Lake" 2 _
           "2025-12-01T12:00:00.000Z" _);
    [ reflexivity | reflexivity | now left ].
Defined.
